(** * The v3 copy-on-write snapshot writer (libsnapshot_cow/writer_v3.cpp)

    A shallow embedding of [CowWriterV3]: the writer object is a record,
    its member functions are computations in a small state-and-abort monad
    over the object and the file it writes to, and fixed-width unsigned
    arithmetic is written out with its wrap-around. *)

From Stdlib Require Import String Ascii.
From Stdlib.Strings Require Import Byte.
From Stdlib Require Import ZArith List Bool Lia Sorted.
Import ListNotations.
Open Scope Z_scope.

(** ** Machine integers *)

Definition wrap (bits x : Z) : Z := x mod 2 ^ bits.
Definition u16 : Z -> Z := wrap 16.
Definition u32 : Z -> Z := wrap 32.
Definition u64 : Z -> Z := wrap 64.

(** [std::numeric_limits<uint16_t>::max()] *)
Definition uint16_max : Z := 65535.

(** ** On-disk format declarations used by the writer *)

Inductive CowOperationType :=
| kCowCopyOp | kCowReplaceOp | kCowZeroOp | kCowXorOp.

Inductive CowCompressionAlgorithm :=
| kCowCompressNone | kCowCompressGz | kCowCompressBrotli | kCowCompressLz4.

Definition CowOperationType_eqb (a b : CowOperationType) : bool :=
  match a, b with
  | kCowCopyOp, kCowCopyOp | kCowReplaceOp, kCowReplaceOp
  | kCowZeroOp, kCowZeroOp | kCowXorOp, kCowXorOp => true
  | _, _ => false
  end.

Definition is_none (a : CowCompressionAlgorithm) : bool :=
  match a with kCowCompressNone => true | _ => false end.

Record CowHeaderPrefix := {
  magic : Z;
  major_version : Z;
  minor_version : Z;
  header_size : Z
}.

(** Modelled from the spec: the header record of section 3 (cow_format.h,
    which declares [CowHeaderV3], is not among the sources).  The counters
    [op_count], [op_count_max] and [sequence_data_count] are 64-bit,
    [resume_point_count], [resume_point_max] and [block_size] 32-bit and
    [header_size] 16-bit unsigned fields. *)
Record CowHeaderV3 := {
  prefix : CowHeaderPrefix;
  footer_size : Z;
  op_size : Z;
  block_size : Z;
  num_merge_ops : Z;
  cluster_ops : Z;
  buffer_size : Z;
  sequence_data_count : Z;
  resume_point_count : Z;
  resume_point_max : Z;
  op_count : Z;
  op_count_max : Z;
  compression_algorithm : CowCompressionAlgorithm
}.

(** Modelled from the spec: the operation record of section 3 (kind,
    destination block, kind-dependent source, payload length); the payload
    length is the 16-bit field that the block size "must fit", the
    destination and the source hold the 64-bit values the writer computes. *)
Record CowOperationV3 := {
  op_type : CowOperationType;
  new_block : Z;
  source : Z;
  data_length : Z
}.

Record ResumePoint := {
  label : Z;
  op_index : Z
}.

Module CowOptions.

Record t := {
  block_size : Z;
  num_merge_ops : Z;
  scratch_space : bool;
  op_count_max : Z;
  compression : string;
  num_compress_threads : Z
}.

End CowOptions.

Record CowCompression := {
  algorithm : CowCompressionAlgorithm;
  compression_level : Z
}.

(** [ICompressor::Compress(data, length)]: bytes in, bytes out. *)
Definition ICompressor := list byte -> list byte.

(** ** The file *)

(** The file is kept as the log of the positioned writes that reached it. *)
Inductive IoEvent :=
| SetupFd
| Seek (off : Z)
| WriteHeader (off : Z) (h : CowHeaderV3) (len : Z)
| WriteZeros (len : Z)
| WriteOps (off : Z) (ops : list CowOperationV3)
| WriteData (off : Z) (data : list byte)
| WriteResume (off : Z) (points : list ResumePoint)
| WriteSequence (off : Z) (data : list Z)
| Fsync.

(** [io_script] holds the outcome of the system calls still to come, in
    order; once it is used up every call succeeds. *)
Record World := {
  io_script : list bool;
  disk : list IoEvent
}.

Definition syscall (ev : IoEvent) (w : World) : bool * World :=
  match io_script w with
  | [] => (true, {| io_script := []; disk := disk w ++ [ev] |})
  | true :: rest => (true, {| io_script := rest; disk := disk w ++ [ev] |})
  | false :: rest => (false, {| io_script := rest; disk := disk w |})
  end.

(** ** What the writer takes from the rest of libsnapshot *)

Record Platform := {
  sizeof_CowHeaderV3 : Z;
  sizeof_CowOperationV3 : Z;
  sizeof_ResumePoint : Z;
  kCowMagicNumber : Z;
  kNumResumePoints : Z;
  BUFFER_REGION_DEFAULT_SIZE : Z;
  CompressionAlgorithmFromString : string -> option CowCompressionAlgorithm;
  GetDefaultCompressionLevel : CowCompressionAlgorithm -> Z;
  ParseUint : string -> option Z;
  ICompressor_Create : CowCompression -> Z -> option ICompressor;
  ReadCowHeader : World -> option CowHeaderV3;
  CowParserV3_Parse :
    World -> CowHeaderV3 -> Z -> option (list ResumePoint * list CowOperationV3)
}.

(** ** The writer object *)

Record CowWriterV3 := {
  options_ : CowOptions.t;
  header_ : CowHeaderV3;
  compression_ : CowCompression;
  compressor_ : option ICompressor;
  num_compress_threads_ : Z;
  next_data_pos_ : Z;
  resume_points_ : list ResumePoint;
  is_dev_null_ : bool
}.

(** Field updates. *)

Definition with_header (h : CowHeaderV3) (s : CowWriterV3) : CowWriterV3 :=
  {| options_ := options_ s; header_ := h; compression_ := compression_ s;
     compressor_ := compressor_ s;
     num_compress_threads_ := num_compress_threads_ s;
     next_data_pos_ := next_data_pos_ s; resume_points_ := resume_points_ s;
     is_dev_null_ := is_dev_null_ s |}.

Definition with_next_data_pos (p : Z) (s : CowWriterV3) : CowWriterV3 :=
  {| options_ := options_ s; header_ := header_ s;
     compression_ := compression_ s; compressor_ := compressor_ s;
     num_compress_threads_ := num_compress_threads_ s;
     next_data_pos_ := p; resume_points_ := resume_points_ s;
     is_dev_null_ := is_dev_null_ s |}.

Definition with_resume_points (l : list ResumePoint) (s : CowWriterV3)
  : CowWriterV3 :=
  {| options_ := options_ s; header_ := header_ s;
     compression_ := compression_ s; compressor_ := compressor_ s;
     num_compress_threads_ := num_compress_threads_ s;
     next_data_pos_ := next_data_pos_ s; resume_points_ := l;
     is_dev_null_ := is_dev_null_ s |}.

Definition with_options (o : CowOptions.t) (s : CowWriterV3) : CowWriterV3 :=
  {| options_ := o; header_ := header_ s;
     compression_ := compression_ s; compressor_ := compressor_ s;
     num_compress_threads_ := num_compress_threads_ s;
     next_data_pos_ := next_data_pos_ s; resume_points_ := resume_points_ s;
     is_dev_null_ := is_dev_null_ s |}.

Definition with_compression (c : CowCompression) (k : option ICompressor)
    (threads : Z) (s : CowWriterV3) : CowWriterV3 :=
  {| options_ := options_ s; header_ := header_ s;
     compression_ := c; compressor_ := k;
     num_compress_threads_ := threads;
     next_data_pos_ := next_data_pos_ s; resume_points_ := resume_points_ s;
     is_dev_null_ := is_dev_null_ s |}.

Definition set_op_count (v : Z) (h : CowHeaderV3) : CowHeaderV3 :=
  {| prefix := prefix h; footer_size := footer_size h; op_size := op_size h;
     block_size := block_size h; num_merge_ops := num_merge_ops h;
     cluster_ops := cluster_ops h; buffer_size := buffer_size h;
     sequence_data_count := sequence_data_count h;
     resume_point_count := resume_point_count h;
     resume_point_max := resume_point_max h;
     op_count := v; op_count_max := op_count_max h;
     compression_algorithm := compression_algorithm h |}.

Definition set_op_count_max (v : Z) (h : CowHeaderV3) : CowHeaderV3 :=
  {| prefix := prefix h; footer_size := footer_size h; op_size := op_size h;
     block_size := block_size h; num_merge_ops := num_merge_ops h;
     cluster_ops := cluster_ops h; buffer_size := buffer_size h;
     sequence_data_count := sequence_data_count h;
     resume_point_count := resume_point_count h;
     resume_point_max := resume_point_max h;
     op_count := op_count h; op_count_max := v;
     compression_algorithm := compression_algorithm h |}.

Definition set_resume_point_count (v : Z) (h : CowHeaderV3) : CowHeaderV3 :=
  {| prefix := prefix h; footer_size := footer_size h; op_size := op_size h;
     block_size := block_size h; num_merge_ops := num_merge_ops h;
     cluster_ops := cluster_ops h; buffer_size := buffer_size h;
     sequence_data_count := sequence_data_count h;
     resume_point_count := v;
     resume_point_max := resume_point_max h;
     op_count := op_count h; op_count_max := op_count_max h;
     compression_algorithm := compression_algorithm h |}.

Definition set_sequence_data_count (v : Z) (h : CowHeaderV3) : CowHeaderV3 :=
  {| prefix := prefix h; footer_size := footer_size h; op_size := op_size h;
     block_size := block_size h; num_merge_ops := num_merge_ops h;
     cluster_ops := cluster_ops h; buffer_size := buffer_size h;
     sequence_data_count := v;
     resume_point_count := resume_point_count h;
     resume_point_max := resume_point_max h;
     op_count := op_count h; op_count_max := op_count_max h;
     compression_algorithm := compression_algorithm h |}.

Definition set_compression_algorithm (a : CowCompressionAlgorithm)
    (h : CowHeaderV3) : CowHeaderV3 :=
  {| prefix := prefix h; footer_size := footer_size h; op_size := op_size h;
     block_size := block_size h; num_merge_ops := num_merge_ops h;
     cluster_ops := cluster_ops h; buffer_size := buffer_size h;
     sequence_data_count := sequence_data_count h;
     resume_point_count := resume_point_count h;
     resume_point_max := resume_point_max h;
     op_count := op_count h; op_count_max := op_count_max h;
     compression_algorithm := a |}.

(** ** The monad of member functions

    A member function runs on the object and the file and either returns
    (a value, the object, the file) or aborts the process ([None]): a failed
    [CHECK] or a division by zero. *)

Definition M (A : Type) : Type :=
  CowWriterV3 -> World -> option (A * CowWriterV3 * World).

Definition ret {A} (a : A) : M A := fun s w => Some (a, s, w).

Definition bind {A B} (c : M A) (k : A -> M B) : M B :=
  fun s w =>
    match c s w with
    | Some (a, s', w') => k a s' w'
    | None => None
    end.

Definition abort {A} : M A := fun _ _ => None.
Definition this : M CowWriterV3 := fun s w => Some (s, s, w).
Definition update (f : CowWriterV3 -> CowWriterV3) : M unit :=
  fun s w => Some (tt, f s, w).
Definition io (ev : IoEvent) : M bool :=
  fun s w => let (ok, w') := syscall ev w in Some (ok, s, w').
Definition peek {A} (f : World -> A) : M A := fun s w => Some (f w, s, w).

Declare Scope cow_scope.
Delimit Scope cow_scope with cow.
Notation "x <- c ;; k" := (bind c (fun x => k))
  (at level 61, c at next level, right associativity) : cow_scope.
Notation "c ;;; k" := (bind c (fun _ => k))
  (at level 61, right associativity) : cow_scope.
Open Scope cow_scope.

(** [CHECK(cond)] *)
Definition CHECK (cond : bool) : M unit := if cond then ret tt else abort.

(** [std::vector<T> v(n)] is filled by a loop over [i = 0 .. n-1]. *)
Definition indices (n : Z) : list Z := map Z.of_nat (seq 0 (Z.to_nat n)).

(** [android::base::Split(s, ",")] *)
Fixpoint Split (s : string) : list string :=
  match s with
  | EmptyString => [EmptyString]
  | String c rest =>
      if Ascii.eqb c "," then EmptyString :: Split rest
      else match Split rest with
           | [] => [String c EmptyString]
           | p :: ps => String c p :: ps
           end
  end.

Section Writer.

Variable P : Platform.

(** ** Region offsets *)

(** Modelled from the spec: the offset functions of cow_format.h are not
    among the sources.  Section 6 orders the regions header, resume-point
    table, sequence-data table, operation table, payload, and section 3 gives
    the payload start as header_size + resume-point-table size +
    sequence-data-table size + op_count_max * record size. *)
Definition GetResumeOffset (h : CowHeaderV3) : Z :=
  u64 (header_size (prefix h)).

Definition GetSequenceOffset (h : CowHeaderV3) : Z :=
  u64 (GetResumeOffset h + resume_point_max h * sizeof_ResumePoint P).

Definition GetOpOffset (op_index : Z) (h : CowHeaderV3) : Z :=
  u64 (GetSequenceOffset h + sequence_data_count h * 4
       + op_index * sizeof_CowOperationV3 P).

Definition GetDataOffset (h : CowHeaderV3) : Z :=
  GetOpOffset (op_count_max h) h.

(** ** CowWriterBase *)

(** Modelled from the spec: the "estimating" flag of the session state
    (CowWriterBase is not among the sources). *)
Definition IsEstimating (s : CowWriterV3) : bool := is_dev_null_ s.

(** Modelled from the spec: "durably flush (sync)". *)
Definition Sync : M bool := io Fsync.

(** Modelled from the spec: the file set-up that precedes option parsing in
    the session opener; it fails like any other system call. *)
Definition InitFd : M bool := io SetupFd.

(** ** Construction *)

Definition SetupHeaders : M unit :=
  update (fun s =>
    with_header
      {| prefix := {| magic := kCowMagicNumber P;
                      major_version := 3;
                      minor_version := 0;
                      header_size := u16 (sizeof_CowHeaderV3 P) |};
         footer_size := 0;
         op_size := sizeof_CowOperationV3 P;
         block_size := u32 (CowOptions.block_size (options_ s));
         num_merge_ops := CowOptions.num_merge_ops (options_ s);
         cluster_ops := 0;
         buffer_size :=
           if CowOptions.scratch_space (options_ s)
           then BUFFER_REGION_DEFAULT_SIZE P else 0;
         sequence_data_count := 0;
         resume_point_count := 0;
         resume_point_max := u32 (kNumResumePoints P);
         op_count := 0;
         op_count_max := 0;
         compression_algorithm := kCowCompressNone |} s).

(** The object as its member initialisers leave it, before [SetupHeaders]. *)
Definition blank (options : CowOptions.t) (dev_null : bool) : CowWriterV3 :=
  {| options_ := options;
     header_ :=
       {| prefix := {| magic := 0; major_version := 0; minor_version := 0;
                       header_size := 0 |};
          footer_size := 0; op_size := 0; block_size := 0;
          num_merge_ops := 0; cluster_ops := 0; buffer_size := 0;
          sequence_data_count := 0; resume_point_count := 0;
          resume_point_max := 0; op_count := 0; op_count_max := 0;
          compression_algorithm := kCowCompressNone |};
     compression_ := {| algorithm := kCowCompressNone;
                        compression_level := 0 |};
     compressor_ := None;
     num_compress_threads_ := 1;
     next_data_pos_ := 0;
     resume_points_ := [];
     is_dev_null_ := dev_null |}.

(** [CowWriterV3::CowWriterV3(options, fd)]; [dev_null] tells whether the
    descriptor stands for no file at all, which makes the session an
    estimating one. *)
Definition CowWriterV3_new (options : CowOptions.t) (dev_null : bool)
  : CowWriterV3 :=
  match SetupHeaders (blank options dev_null) {| io_script := []; disk := [] |}
  with
  | Some (_, s, _) => s
  | None => blank options dev_null
  end.

Definition ParseOptions : M bool :=
  update (fun s =>
    with_compression (compression_ s) (compressor_ s)
      (Z.max (CowOptions.num_compress_threads (options_ s)) 1) s) ;;;
  s <- this ;;
  let parts := Split (CowOptions.compression (options_ s)) in
  if 2 <? Z.of_nat (length parts) then ret false else
  match CompressionAlgorithmFromString P (hd EmptyString parts) with
  | None => ret false
  | Some alg =>
      update (fun s =>
        with_header
          (set_op_count_max (u64 (CowOptions.op_count_max (options_ s)))
             (set_compression_algorithm alg (header_ s))) s) ;;;
      let level :=
        if 1 <? Z.of_nat (length parts)
        then ParseUint P (nth 1 parts EmptyString)
        else Some (GetDefaultCompressionLevel P alg) in
      match level with
      | None => ret false
      | Some lv =>
          update (fun s =>
            with_compression {| algorithm := alg; compression_level := lv |}
              (compressor_ s) (num_compress_threads_ s) s) ;;;
          if is_none alg then ret true else
          s <- this ;;
          let k := ICompressor_Create P (compression_ s)
                     (block_size (header_ s)) in
          update (fun s =>
            with_compression (compression_ s) k (num_compress_threads_ s) s) ;;;
          match k with
          | None => ret false
          | Some _ => ret true
          end
      end
  end.

(** ** Opening a session *)

Definition OpenForWrite : M bool :=
  s <- this ;;
  if uint16_max <? block_size (header_ s) then ret false else
  ok <- io (Seek 0) ;;
  if negb ok then ret false else
  ok <- io (WriteHeader 0 (header_ s) (sizeof_CowHeaderV3 P)) ;;
  if negb ok then ret false else
  ok <- (if CowOptions.scratch_space (options_ s)
         then io (WriteZeros (buffer_size (header_ s)))
         else ret true) ;;
  if negb ok then ret false else
  update (with_resume_points []) ;;;
  ok <- Sync ;;
  if negb ok then ret false else
  update (fun s => with_next_data_pos (GetDataOffset (header_ s)) s) ;;;
  ret true.

(** [next_data_pos_ += op.data_length] over the recovered operations. *)
Definition advance_over (ops : list CowOperationV3) (pos : Z) : Z :=
  fold_left (fun p op => u64 (p + data_length op)) ops pos.

(** The parser object is local to [OpenForAppend]: after the call the
    writer is the only holder of the resume-point vector it took over. *)
Definition OpenForAppend (label : Z) : M bool :=
  header_v3 <- peek (ReadCowHeader P) ;;
  match header_v3 with
  | None => ret false
  | Some header_v3 =>
      update (with_header header_v3) ;;;
      CHECK (0 <=? label) ;;;
      s <- this ;;
      parsed <- peek (fun w => CowParserV3_Parse P w (header_ s) label) ;;
      match parsed with
      | None => ret false
      | Some (points, ops) =>
          update (with_resume_points points) ;;;
          update (fun s =>
            with_options
              {| CowOptions.block_size := block_size (header_ s);
                 CowOptions.num_merge_ops :=
                   CowOptions.num_merge_ops (options_ s);
                 CowOptions.scratch_space :=
                   CowOptions.scratch_space (options_ s);
                 CowOptions.op_count_max :=
                   CowOptions.op_count_max (options_ s);
                 CowOptions.compression :=
                   CowOptions.compression (options_ s);
                 CowOptions.num_compress_threads :=
                   CowOptions.num_compress_threads (options_ s) |} s) ;;;
          update (fun s => with_next_data_pos (GetDataOffset (header_ s)) s) ;;;
          update (fun s =>
            with_header
              (set_op_count (u64 (Z.of_nat (length ops))) (header_ s)) s) ;;;
          update (fun s =>
            with_next_data_pos (advance_over ops (next_data_pos_ s)) s) ;;;
          ret true
      end
  end.

Definition Initialize (label : option Z) : M bool :=
  ok <- InitFd ;;
  if negb ok then ret false else
  ok <- ParseOptions ;;
  if negb ok then ret false else
  match label with
  | None => OpenForWrite
  | Some l => OpenForAppend l
  end.

(** ** The write protocol *)

Definition WriteOperation (ops : list CowOperationV3) (data : list byte)
  : M bool :=
  s <- this ;;
  let n := Z.of_nat (length ops) in
  let size := Z.of_nat (length data) in
  if IsEstimating s then
    update (fun s =>
      with_header (set_op_count (u64 (op_count (header_ s) + n)) (header_ s))
        s) ;;;
    s <- this ;;
    (if op_count_max (header_ s) <? op_count (header_ s) then
       update (fun s =>
         with_next_data_pos
           (u64 (next_data_pos_ s
                 + u64 (u64 (op_count (header_ s) - op_count_max (header_ s))
                        * sizeof_CowOperationV3 P))) s) ;;;
       update (fun s =>
         with_header (set_op_count_max (op_count (header_ s)) (header_ s)) s)
     else ret tt) ;;;
    update (fun s => with_next_data_pos (u64 (next_data_pos_ s + size)) s) ;;;
    ret true
  else
    if op_count_max (header_ s) <? u64 (op_count (header_ s) + n)
    then ret false else
    let offset := GetOpOffset (op_count (header_ s)) (header_ s) in
    ok <- io (WriteOps offset ops) ;;
    if negb ok then ret false else
    ok <- (match data with
           | [] => ret true
           | _ :: _ => io (WriteData (next_data_pos_ s) data)
           end) ;;
    if negb ok then ret false else
    update (fun s =>
      with_header (set_op_count (u64 (op_count (header_ s) + n)) (header_ s))
        s) ;;;
    update (fun s => with_next_data_pos (u64 (next_data_pos_ s + size)) s) ;;;
    ret true.

(** [WriteOperation(const CowOperationV3& op, const void* data, size_t size)] *)
Definition WriteOperation1 (op : CowOperationV3) (data : list byte) (size : Z)
  : M bool :=
  WriteOperation [op] (firstn (Z.to_nat size) data).

Definition Finalize : M bool :=
  s <- this ;;
  CHECK (sizeof_CowHeaderV3 P <=? header_size (prefix (header_ s))) ;;;
  CHECK (header_size (prefix (header_ s)) <=? sizeof_CowHeaderV3 P) ;;;
  ok <- io (WriteHeader 0 (header_ s) (header_size (prefix (header_ s)))) ;;
  if negb ok then ret false else
  Sync.

Definition GetCowSize (s : CowWriterV3) : Z := next_data_pos_ s.

(** ** The operation emitter *)

Definition EmitCopy (new_block old_block num_blocks : Z) : M bool :=
  let ops :=
    map (fun i =>
           {| op_type := kCowCopyOp;
              new_block := u64 (new_block + i);
              source := u64 (old_block + i);
              data_length := 0 |})
        (indices num_blocks) in
  ok <- WriteOperation ops [] ;;
  if negb ok then ret false else ret true.

(** The source field of block [i] of a batch: a byte position in the old
    device for an XOR, the payload position [pos] otherwise. *)
Definition source_of (type : CowOperationType) (old_block offset bs i pos : Z)
  : Z :=
  if CowOperationType_eqb type kCowXorOp
  then u64 ((old_block + i) * bs + offset)
  else pos.

(** The loop of the compressed path, [n] iterations from index [i] on. *)
Fixpoint EmitBlocks_loop (compressor : ICompressor) (n : nat) (i : Z)
    (new_block_start : Z) (data : list byte) (old_block offset : Z)
    (type : CowOperationType) (saved_op_count saved_data_pos : Z) : M bool :=
  match n with
  | O => ret true
  | S n' =>
      s <- this ;;
      let bs := block_size (header_ s) in
      let iter := skipn (Z.to_nat (u64 (bs * i))) data in
      let compressed_data := compressor (firstn (Z.to_nat bs) iter) in
      let smaller := Z.of_nat (length compressed_data) <? u16 bs in
      let out_data := if smaller then compressed_data else iter in
      let op :=
        {| op_type := type;
           new_block := u64 (new_block_start + i);
           source := source_of type old_block offset bs i (next_data_pos_ s);
           data_length :=
             if smaller then Z.of_nat (length compressed_data)
             else u16 bs |} in
      ok <- WriteOperation1 op out_data (data_length op) ;;
      if negb ok then
        update (fun s => with_header (set_op_count saved_op_count (header_ s)) s) ;;;
        update (with_next_data_pos saved_data_pos) ;;;
        ret false
      else
        EmitBlocks_loop compressor n' (i + 1) new_block_start data old_block
          offset type saved_op_count saved_data_pos
  end.

Definition EmitBlocks (new_block_start : Z) (data : list byte)
    (old_block offset : Z) (type : CowOperationType) : M bool :=
  s <- this ;;
  let size := Z.of_nat (length data) in
  match is_none (algorithm (compression_ s)), compressor_ s with
  | false, None => ret false
  | none, compressor =>
      if block_size (header_ s) =? 0 then abort else
      let num_blocks := size / block_size (header_ s) in
      if none then
        let ops :=
          map (fun i =>
                 {| op_type := type;
                    new_block := u64 (new_block_start + i);
                    source :=
                      source_of type old_block offset (block_size (header_ s))
                        i (u64 (next_data_pos_ s + block_size (header_ s) * i));
                    data_length := u16 (block_size (header_ s)) |})
              (indices num_blocks) in
        WriteOperation ops data
      else
        match compressor with
        | None => ret false
        | Some k =>
            EmitBlocks_loop k (Z.to_nat num_blocks) 0 new_block_start data
              old_block offset type (op_count (header_ s)) (next_data_pos_ s)
        end
  end.

Definition EmitRawBlocks (new_block_start : Z) (data : list byte) : M bool :=
  EmitBlocks new_block_start data 0 0 kCowReplaceOp.

Definition EmitXorBlocks (new_block_start : Z) (data : list byte)
    (old_block offset : Z) : M bool :=
  EmitBlocks (u32 new_block_start) data (u32 old_block) (u16 offset) kCowXorOp.

Definition EmitZeroBlocks (new_block_start num_blocks : Z) : M bool :=
  let ops :=
    map (fun i =>
           {| op_type := kCowZeroOp;
              new_block := u64 (new_block_start + i);
              source := 0;
              data_length := 0 |})
        (indices num_blocks) in
  ok <- WriteOperation ops [] ;;
  if negb ok then ret false else ret true.

(** ** Checkpoints *)

Definition remove_if_callback (lbl : Z) (resume_point : ResumePoint) : bool :=
  lbl <=? label resume_point.

(** [erase(remove_if(begin, end, pred), end)] *)
Definition erase_remove_if (pred : ResumePoint -> bool)
    (l : list ResumePoint) : list ResumePoint :=
  filter (fun x => negb (pred x)) l.

(** [while (size() > max) erase(begin())] *)
Fixpoint evict_oldest (max : Z) (l : list ResumePoint) : list ResumePoint :=
  match l with
  | [] => []
  | _ :: rest =>
      if max <? Z.of_nat (length l) then evict_oldest max rest else l
  end.

Definition EmitLabel (label : Z) : M bool :=
  update (fun s =>
    with_resume_points
      (erase_remove_if (remove_if_callback label) (resume_points_ s)) s) ;;;
  update (fun s =>
    with_resume_points
      (resume_points_ s
       ++ [{| label := label; op_index := op_count (header_ s) |}]) s) ;;;
  update (fun s =>
    with_header
      (set_resume_point_count (u32 (resume_point_count (header_ s) + 1))
         (header_ s)) s) ;;;
  update (fun s =>
    with_resume_points
      (evict_oldest (resume_point_max (header_ s)) (resume_points_ s)) s) ;;;
  s <- this ;;
  CHECK (Z.of_nat (length (resume_points_ s))
         <=? resume_point_max (header_ s)) ;;;
  ok <- io (WriteResume (GetResumeOffset (header_ s)) (resume_points_ s)) ;;
  if negb ok then ret false else
  Finalize.

Definition EmitSequenceData (data : list Z) : M bool :=
  let num_ops := Z.of_nat (length data) in
  update (fun s =>
    with_header (set_sequence_data_count (u64 num_ops) (header_ s)) s) ;;;
  s <- this ;;
  ok <- io (WriteSequence (GetSequenceOffset (header_ s)) data) ;;
  if negb ok then ret false else ret true.

(** ** Replaying a sequence of calls *)

Inductive Call :=
| CallEmitCopy (new_block old_block num_blocks : Z)
| CallEmitRawBlocks (new_block_start : Z) (data : list byte)
| CallEmitXorBlocks (new_block_start : Z) (data : list byte)
    (old_block offset : Z)
| CallEmitZeroBlocks (new_block_start num_blocks : Z)
| CallEmitLabel (label : Z)
| CallEmitSequenceData (data : list Z).

Definition perform (c : Call) : M bool :=
  match c with
  | CallEmitCopy n o k => EmitCopy n o k
  | CallEmitRawBlocks n d => EmitRawBlocks n d
  | CallEmitXorBlocks n d o off => EmitXorBlocks n d o off
  | CallEmitZeroBlocks n k => EmitZeroBlocks n k
  | CallEmitLabel l => EmitLabel l
  | CallEmitSequenceData d => EmitSequenceData d
  end.

Fixpoint replay (cs : list Call) : M (list bool) :=
  match cs with
  | [] => ret []
  | c :: rest =>
      ok <- perform c ;;
      oks <- replay rest ;;
      ret (ok :: oks)
  end.

(** ** Derived notions used in the statements *)

(** The session after an estimated write of [n] records and [size] payload
    bytes. *)
Definition estimated (n size : Z) (s : CowWriterV3) : CowWriterV3 :=
  let h := header_ s in
  let oc := u64 (op_count h + n) in
  if op_count_max h <? oc then
    with_next_data_pos
      (u64 (u64 (next_data_pos_ s
                 + u64 (u64 (oc - op_count_max h) * sizeof_CowOperationV3 P))
            + size))
      (with_header (set_op_count_max oc (set_op_count oc h)) s)
  else
    with_next_data_pos (u64 (next_data_pos_ s + size))
      (with_header (set_op_count oc h) s).

(** The session after a real write of [n] records and [size] payload bytes
    went through. *)
Definition committed (n size : Z) (s : CowWriterV3) : CowWriterV3 :=
  with_next_data_pos (u64 (next_data_pos_ s + size))
    (with_header (set_op_count (u64 (op_count (header_ s) + n)) (header_ s)) s).


(** The last [m] elements of a list. *)
Definition newest {A} (m : Z) (l : list A) : list A :=
  skipn (length l - Z.to_nat m) l.

(** Total payload length of a list of operation records. *)
Definition payload_total (ops : list CowOperationV3) : Z :=
  fold_right (fun op acc => data_length op + acc) 0 ops.

(** The records and the payload buffers that reached the file, in order. *)
Definition records_of (log : list IoEvent) : list CowOperationV3 :=
  flat_map (fun ev => match ev with WriteOps _ ops => ops | _ => [] end) log.

Definition payloads_of (log : list IoEvent) : list (list byte) :=
  flat_map (fun ev => match ev with WriteData _ d => [d] | _ => [] end) log.

(** The session with its two running counters set. *)
Definition at_counts (count pos : Z) (s : CowWriterV3) : CowWriterV3 :=
  with_next_data_pos pos (with_header (set_op_count count (header_ s)) s).

(** What the compressed path reads, records and stores for block [i]. *)
Definition chunk (bs i : Z) (data : list byte) : list byte :=
  firstn (Z.to_nat bs) (skipn (Z.to_nat (u64 (bs * i))) data).

Definition stored_length (k : ICompressor) (bs i : Z) (data : list byte) : Z :=
  let c := k (chunk bs i data) in
  if Z.of_nat (length c) <? u16 bs then Z.of_nat (length c) else u16 bs.

Definition stored_bytes (k : ICompressor) (bs i : Z) (data : list byte)
  : list byte :=
  let c := k (chunk bs i data) in
  firstn (Z.to_nat (stored_length k bs i data))
    (if Z.of_nat (length c) <? u16 bs then c
     else skipn (Z.to_nat (u64 (bs * i))) data).

(** The indices [i, i+1, ..., i+n-1]. *)
Definition span (i : Z) (n : nat) : list Z :=
  map (fun j => i + Z.of_nat j) (seq 0 n).

(** The two counters after one-record writes with the given payload sizes. *)
Definition run_counts (sizes : list Z) (cp : Z * Z) : Z * Z :=
  fold_left (fun cp size => (u64 (fst cp + 1), u64 (snd cp + size))) sizes cp.

(** Sum of a list of integers. *)
Definition total (l : list Z) : Z := fold_right Z.add 0 l.

(** The session after estimated one-record writes with the given payload
    sizes. *)
Definition estimate_all (sizes : list Z) (s : CowWriterV3) : CowWriterV3 :=
  fold_left (fun s size => estimated 1 size s) sizes s.

(** The session as [EmitLabel] leaves it, whatever it returns. *)
Definition labelled (lbl : Z) (s : CowWriterV3) : CowWriterV3 :=
  with_resume_points
    (evict_oldest (resume_point_max (header_ s))
       (erase_remove_if (remove_if_callback lbl) (resume_points_ s)
        ++ [{| label := lbl; op_index := op_count (header_ s) |}]))
    (with_header
       (set_resume_point_count (u32 (resume_point_count (header_ s) + 1))
          (header_ s)) s).

(** The header passes the checks of [Finalize] and its resume-point
    capacity is an unsigned number. *)
Definition well_formed (s : CowWriterV3) : Prop :=
  header_size (prefix (header_ s)) = sizeof_CowHeaderV3 P
  /\ 0 <= resume_point_max (header_ s).

(** The compression policy of section 4.5, for one block: the compressed
    bytes and their length when that is strictly smaller than the block
    size, the block itself at full block length otherwise. *)
Definition nth_block (bs i : Z) (data : list byte) : list byte :=
  firstn (Z.to_nat bs) (skipn (Z.to_nat (bs * i)) data).

Definition policy_length (k : ICompressor) (bs : Z) (blk : list byte) : Z :=
  if Z.of_nat (length (k blk)) <? bs then Z.of_nat (length (k blk)) else bs.

Definition policy_bytes (k : ICompressor) (bs : Z) (blk : list byte)
  : list byte :=
  if Z.of_nat (length (k blk)) <? bs then k blk else blk.

(** The number of records a call commits when nothing stops it. *)
Definition records_in (s : CowWriterV3) (c : Call) : Z :=
  let blocks (data : list byte) :=
    match is_none (algorithm (compression_ s)), compressor_ s with
    | false, None => 0
    | _, _ =>
        Z.of_nat (Z.to_nat (Z.of_nat (length data) / block_size (header_ s)))
    end in
  match c with
  | CallEmitCopy _ _ n => Z.of_nat (Z.to_nat n)
  | CallEmitZeroBlocks _ n => Z.of_nat (Z.to_nat n)
  | CallEmitRawBlocks _ data => blocks data
  | CallEmitXorBlocks _ data _ _ => blocks data
  | CallEmitLabel _ => 0
  | CallEmitSequenceData _ => 0
  end.

Definition total_records (s : CowWriterV3) (cs : list Call) : Z :=
  total (map (records_in s) cs).

(** A file on which no system call is going to fail. *)
Definition reliable (w : World) : Prop :=
  Forall (fun ok => ok = true) (io_script w).

(** An estimating session [e] and a real session [r] of capacity [M] that
    went through the same calls: they agree on everything but the capacity
    and the payload cursor, and their cursors are the same distance past
    the end of their operation tables. *)
Definition mirrors (M : Z) (e r : CowWriterV3) : Prop :=
  IsEstimating e = true
  /\ IsEstimating r = false
  /\ set_op_count_max 0 (header_ e) = set_op_count_max 0 (header_ r)
  /\ op_count_max (header_ r) = M
  /\ compression_ e = compression_ r
  /\ compressor_ e = compressor_ r
  /\ resume_points_ e = resume_points_ r
  /\ u64 (next_data_pos_ e - sizeof_CowOperationV3 P * op_count_max (header_ e))
     = u64 (next_data_pos_ r - sizeof_CowOperationV3 P * M)
  /\ 0 <= next_data_pos_ e < 2 ^ 64
  /\ 0 <= next_data_pos_ r < 2 ^ 64.

(** Two sessions set up alike: what the emitters read but never write. *)
Definition same_setup (a b : CowWriterV3) : Prop :=
  block_size (header_ a) = block_size (header_ b)
  /\ prefix (header_ a) = prefix (header_ b)
  /\ resume_point_max (header_ a) = resume_point_max (header_ b)
  /\ compression_ a = compression_ b
  /\ compressor_ a = compressor_ b
  /\ is_dev_null_ a = is_dev_null_ b.

(** The compression configuration that [ParseOptions] reads off the
    options. *)
Definition requested_compression (o : CowOptions.t) : option CowCompression :=
  let parts := Split (CowOptions.compression o) in
  match CompressionAlgorithmFromString P (hd EmptyString parts) with
  | None => None
  | Some alg =>
      match (if 1 <? Z.of_nat (length parts)
             then ParseUint P (nth 1 parts EmptyString)
             else Some (GetDefaultCompressionLevel P alg)) with
      | None => None
      | Some lv => Some {| algorithm := alg; compression_level := lv |}
      end
  end.

(** The same options with another operation-table capacity. *)
Definition with_op_count_max (m : Z) (o : CowOptions.t) : CowOptions.t :=
  {| CowOptions.block_size := CowOptions.block_size o;
     CowOptions.num_merge_ops := CowOptions.num_merge_ops o;
     CowOptions.scratch_space := CowOptions.scratch_space o;
     CowOptions.op_count_max := m;
     CowOptions.compression := CowOptions.compression o;
     CowOptions.num_compress_threads := CowOptions.num_compress_threads o |}.

End Writer.

(** ** A concrete platform, to run the writer on examples *)

(** A toy codec: a block whose bytes are all equal shrinks to one byte, any
    other block grows by one. *)
Definition toy_compress : ICompressor :=
  fun block =>
    match block with
    | [] => []
    | b :: rest =>
        if forallb (Byte.eqb b) rest then [b] else x00 :: block
    end.

Definition toy_algorithm (name : string) : option CowCompressionAlgorithm :=
  if String.eqb name "none" then Some kCowCompressNone
  else if String.eqb name "" then Some kCowCompressNone
  else if String.eqb name "gz" then Some kCowCompressGz
  else if String.eqb name "brotli" then Some kCowCompressBrotli
  else if String.eqb name "lz4" then Some kCowCompressLz4
  else None.

Definition toy_digit (c : ascii) : option Z :=
  let n := Z.of_N (N_of_ascii c) in
  if (48 <=? n) && (n <=? 57) then Some (n - 48) else None.

Fixpoint toy_digits (s : string) (acc : Z) : option Z :=
  match s with
  | EmptyString => Some acc
  | String c rest =>
      match toy_digit c with
      | Some d => toy_digits rest (10 * acc + d)
      | None => None
      end
  end.

Definition toy_ParseUint (s : string) : option Z :=
  match s with
  | EmptyString => None
  | _ => toy_digits s 0
  end.

(** The platform of the examples: record sizes of a packed 64-bit layout,
    four resume points, and a parser that is handed its answer. *)
Definition example_platform
    (on_disk : option CowHeaderV3)
    (parsed : option (list ResumePoint * list CowOperationV3)) : Platform :=
  {| sizeof_CowHeaderV3 := 74;
     sizeof_CowOperationV3 := 14;
     sizeof_ResumePoint := 16;
     kCowMagicNumber := 4859083862230245665;
     kNumResumePoints := 4;
     BUFFER_REGION_DEFAULT_SIZE := 2097152;
     CompressionAlgorithmFromString := toy_algorithm;
     GetDefaultCompressionLevel := fun _ => 0;
     ParseUint := toy_ParseUint;
     ICompressor_Create := fun _ _ => Some toy_compress;
     ReadCowHeader := fun _ => on_disk;
     CowParserV3_Parse := fun _ _ _ => parsed |}.

Definition PX : Platform := example_platform None None.

Definition example_options (compression : string) (op_count_max : Z)
  : CowOptions.t :=
  {| CowOptions.block_size := 4;
     CowOptions.num_merge_ops := 0;
     CowOptions.scratch_space := false;
     CowOptions.op_count_max := op_count_max;
     CowOptions.compression := compression;
     CowOptions.num_compress_threads := 1 |}.

Definition quiet : World := {| io_script := []; disk := [] |}.

(** A freshly opened session, or the unopened object should opening fail. *)
Definition opened (P : Platform) (options : CowOptions.t) (dev_null : bool)
  : CowWriterV3 :=
  match Initialize P None (CowWriterV3_new P options dev_null) quiet with
  | Some (true, s, _) => s
  | _ => CowWriterV3_new P options dev_null
  end.

(** The sessions and requests of the examples. *)
Definition estimating_session : CowWriterV3 :=
  opened PX (example_options "none" 0) true.

Definition real_session (compression : string) (op_count_max : Z)
  : CowWriterV3 :=
  opened PX (example_options compression op_count_max) false.

Definition zero_op (blk : Z) : CowOperationV3 :=
  {| op_type := kCowZeroOp; new_block := blk; source := 0; data_length := 0 |}.

(** Nine bytes at block size four: a block of equal bytes, a block of
    distinct bytes, and one byte left over. *)
Definition nine_bytes : list byte :=
  [x01; x01; x01; x01; x01; x02; x03; x04; x05].

Definition failing (script : list bool) : World :=
  {| io_script := script; disk := [] |}.

Definition example_calls : list Call :=
  [CallEmitRawBlocks 0 nine_bytes; CallEmitLabel 1; CallEmitZeroBlocks 2 1].

(** The end of a run, or the given session if the run aborted. *)
Definition outcome {A} (d : A) (run : option (A * CowWriterV3 * World))
    (s : CowWriterV3) : A * CowWriterV3 * World :=
  match run with
  | Some x => x
  | None => (d, s, quiet)
  end.

(** A file holding a header and two four-byte blocks under label 1, on a
    platform whose parser recovers them. *)
Definition recovered_ops : list CowOperationV3 :=
  [{| op_type := kCowReplaceOp; new_block := 0; source := 208;
      data_length := 4 |};
   {| op_type := kCowReplaceOp; new_block := 1; source := 212;
      data_length := 4 |}].

Definition recovered_points : list ResumePoint :=
  [{| label := 1; op_index := 2 |}].

Definition PR : Platform :=
  example_platform (Some (header_ (opened PX (example_options "none" 5) false)))
    (Some (recovered_points, recovered_ops)).

(** The estimating and the real session of the replay example, each with
    the file as opening left it, and the end of the estimation. *)
Definition estimate_start : bool * CowWriterV3 * World :=
  outcome false
    (Initialize PX None (CowWriterV3_new PX (example_options "lz4" 0) true) quiet)
    (CowWriterV3_new PX (example_options "lz4" 0) true).

Definition real_start : bool * CowWriterV3 * World :=
  outcome false
    (Initialize PX None
       (CowWriterV3_new PX (with_op_count_max 3 (example_options "lz4" 0)) false)
       quiet)
    (CowWriterV3_new PX (example_options "lz4" 3) false).

Definition estimate_end : list bool * CowWriterV3 * World :=
  outcome []
    (replay PX example_calls (snd (fst estimate_start)) (snd estimate_start))
    (snd (fst estimate_start)).

(** A compressed request that goes through. *)
Definition compressed_end : bool * CowWriterV3 * World :=
  outcome false
    (EmitBlocks PX 0 nine_bytes 0 0 kCowReplaceOp (real_session "lz4" 5) quiet)
    (real_session "lz4" 5).

(** ** Notions used in the further properties *)

(** The session with its three counters set: committed operations, table
    capacity and payload cursor. *)
Definition recount (count cap pos : Z) (s : CowWriterV3) : CowWriterV3 :=
  with_next_data_pos pos
    (with_header (set_op_count_max cap (set_op_count count (header_ s))) s).

(** The committed operation count is within the table capacity. *)
Definition within_capacity (s : CowWriterV3) : Prop :=
  op_count (header_ s) <= op_count_max (header_ s).

(** What a call does to the session besides moving the three counters. *)
Definition base_effect (c : Call) (s : CowWriterV3) : CowWriterV3 :=
  match c with
  | CallEmitLabel l => labelled l s
  | CallEmitSequenceData data =>
      with_header
        (set_sequence_data_count (u64 (Z.of_nat (length data))) (header_ s)) s
  | _ => s
  end.

(** Resume points in strictly increasing label order. *)
Definition increasing_labels (l : list ResumePoint) : Prop :=
  StronglySorted (fun a b => label a < label b) l.

(** The shape of the session after anything built from [WriteOperation]:
    only the three counters moved; under [A] the count is within the
    capacity; the capacity never shrinks and is fixed in real mode. *)
Definition moved_under (A : Prop) (s s' : CowWriterV3) : Prop :=
  exists c m p,
    s' = recount c m p s
    /\ (A -> c <= m)
    /\ op_count_max (header_ s) <= m
    /\ (IsEstimating s = false -> m = op_count_max (header_ s)).

Definition moved (s s' : CowWriterV3) : Prop :=
  moved_under (within_capacity s) s s'.

(** The calls that emit operation records. *)
Definition emits_records (c : Call) : bool :=
  match c with
  | CallEmitLabel _ | CallEmitSequenceData _ => false
  | _ => true
  end.

(** A stretch of the file log made of one-record table writes, each followed
    by its payload unless that is empty: every record's source is the
    position its payload went to, its length is the number of bytes there,
    and the payloads follow one another from [pos] up to [finish]. *)
Fixpoint placed_from (pos : Z) (log : list IoEvent) (finish : Z) {struct log}
  : Prop :=
  match log with
  | [] => finish = pos
  | WriteOps _ [op] :: rest =>
      match rest with
      | WriteData p d :: rest' =>
          source op = pos
          /\ p = pos
          /\ data_length op = Z.of_nat (length d)
          /\ placed_from (u64 (pos + Z.of_nat (length d))) rest' finish
      | _ =>
          source op = pos
          /\ data_length op = 0
          /\ placed_from (u64 (pos + 0)) rest finish
      end
  | _ => False
  end.

(** ** Further runs of the examples *)

(** The example calls replayed on a real session with room for them. *)
Definition real_end : list bool * CowWriterV3 * World :=
  outcome []
    (replay PX example_calls (real_session "lz4" 3) quiet)
    (real_session "lz4" 3).

(** A label emitted on a fresh real session. *)
Definition label_end : bool * CowWriterV3 * World :=
  outcome false (EmitLabel PX 7 (real_session "none" 5) quiet)
    (real_session "none" 5).

(** One record with one byte of payload, the payload write failing. *)
Definition torn_end : bool * CowWriterV3 * World :=
  outcome false
    (WriteOperation PX [zero_op 0] [x01] (real_session "none" 2)
       (failing [true; false]))
    (real_session "none" 2).

Definition copy_end : bool * CowWriterV3 * World :=
  outcome false (EmitCopy PX 10 20 3 (real_session "none" 5) quiet)
    (real_session "none" 5).

Definition zero_end : bool * CowWriterV3 * World :=
  outcome false (EmitZeroBlocks PX 10 3 (real_session "none" 5) quiet)
    (real_session "none" 5).

Definition estimate_blocks_end : bool * CowWriterV3 * World :=
  outcome false
    (perform PX (CallEmitRawBlocks 0 nine_bytes) estimating_session quiet)
    estimating_session.

(** The object between [ParseOptions] and [OpenForWrite]. *)
Definition unopened : CowWriterV3 :=
  snd (fst (outcome false
              (ParseOptions PX (CowWriterV3_new PX (example_options "none" 5) false)
                 quiet)
              (CowWriterV3_new PX (example_options "none" 5) false))).

Definition open_end : bool * CowWriterV3 * World :=
  outcome false (OpenForWrite PX unopened quiet) unopened.

Definition append_end : bool * CowWriterV3 * World :=
  outcome false (OpenForAppend PR 1 unopened quiet) unopened.

Definition resumed_start : bool * CowWriterV3 * World :=
  outcome false
    (Initialize PR (Some 1) (CowWriterV3_new PR (example_options "lz4" 0) false)
       quiet)
    (CowWriterV3_new PR (example_options "lz4" 0) false).

(** * Properties *)

(** ** Wrap-around arithmetic *)

Lemma u64_range (x : Z) : 0 <= u64 x < 2 ^ 64.
Proof. unfold u64, wrap. apply Z.mod_pos_bound. lia. Qed.

Lemma u64_small (x : Z) : 0 <= x < 2 ^ 64 -> u64 x = x.
Proof. intros H. unfold u64, wrap. apply Z.mod_small. exact H. Qed.

Lemma u16_small (x : Z) : 0 <= x < 2 ^ 16 -> u16 x = x.
Proof. intros H. unfold u16, wrap. apply Z.mod_small. exact H. Qed.

Lemma u64_u64 (x : Z) : u64 (u64 x) = u64 x.
Proof. apply u64_small, u64_range. Qed.

Lemma u64_add_l (a b : Z) : u64 (u64 a + b) = u64 (a + b).
Proof. unfold u64, wrap. apply Zplus_mod_idemp_l. Qed.

Lemma u64_add_r (a b : Z) : u64 (a + u64 b) = u64 (a + b).
Proof. unfold u64, wrap. apply Zplus_mod_idemp_r. Qed.

Lemma u64_mul_l (a b : Z) : u64 (u64 a * b) = u64 (a * b).
Proof. unfold u64, wrap. apply Zmult_mod_idemp_l. Qed.

(** Two integers with the same 64-bit residue differ by a multiple of 2^64. *)
Lemma u64_eq_iff (a b : Z) : u64 a = u64 b <-> exists k, a = b + k * 2 ^ 64.
Proof.
  unfold u64, wrap. split.
  - intros H. exists (a / 2 ^ 64 - b / 2 ^ 64).
    pose proof (Z.div_mod a (2 ^ 64)). pose proof (Z.div_mod b (2 ^ 64)). lia.
  - intros [k ->]. apply Z_mod_plus_full.
Qed.

Lemma u64_growth (pos d sz size : Z) :
  u64 (u64 (pos + u64 (u64 d * sz)) + size) = u64 (pos + d * sz + size).
Proof.
  rewrite u64_add_l.
  replace (pos + u64 (u64 d * sz) + size)
    with (pos + size + u64 (u64 d * sz)) by lia.
  rewrite <- (u64_add_r (pos + size) (u64 (u64 d * sz))), u64_u64.
  rewrite u64_mul_l, u64_add_r. f_equal. lia.
Qed.

(** ** Running the monad *)

Ltac run :=
  unfold bind, ret, this, update, io, peek, CHECK, abort in *; cbn beta iota.

Lemma syscall_true ev w w' : syscall ev w = (true, w') -> disk w' = disk w ++ [ev].
Proof.
  unfold syscall. destruct (io_script w) as [|[|] rest]; intros H;
    inversion H; reflexivity.
Qed.

Lemma syscall_false ev w w' : syscall ev w = (false, w') -> disk w' = disk w.
Proof.
  unfold syscall. destruct (io_script w) as [|[|] rest]; intros H;
    inversion H; reflexivity.
Qed.

Lemma indices_length n : length (indices n) = Z.to_nat n.
Proof. unfold indices. rewrite length_map, length_seq. reflexivity. Qed.

Lemma records_of_app l1 l2 : records_of (l1 ++ l2) = records_of l1 ++ records_of l2.
Proof. unfold records_of. apply flat_map_app. Qed.

Lemma payloads_of_app l1 l2 :
  payloads_of (l1 ++ l2) = payloads_of l1 ++ payloads_of l2.
Proof. unfold payloads_of. apply flat_map_app. Qed.

Lemma records_of_ops off ops l :
  records_of (WriteOps off ops :: l) = ops ++ records_of l.
Proof. reflexivity. Qed.

Lemma records_of_tail (data : list byte) pos :
  records_of match data with
             | [] => []
             | _ :: _ => [WriteData pos data]
             end = [].
Proof. destruct data; reflexivity. Qed.

Lemma payloads_of_tail (data : list byte) pos off ops :
  concat (payloads_of (WriteOps off ops
                       :: match data with
                          | [] => []
                          | _ :: _ => [WriteData pos data]
                          end)) = data.
Proof. destruct data; cbn; rewrite ?app_nil_r; reflexivity. Qed.

Lemma advance_over_total ops pos :
  advance_over ops (u64 pos) = u64 (pos + payload_total ops).
Proof.
  unfold advance_over, payload_total. revert pos.
  induction ops as [|op ops IH]; intros pos; cbn [fold_left fold_right].
  - f_equal. lia.
  - rewrite u64_add_l, IH. f_equal. lia.
Qed.

Lemma payload_total_nonneg ops :
  Forall (fun op => 0 <= data_length op) ops -> 0 <= payload_total ops.
Proof. unfold payload_total. induction 1; cbn; lia. Qed.

(** ** The resume-point vector *)

Lemma evict_oldest_newest m l : evict_oldest m l = newest m l.
Proof.
  unfold newest. induction l as [|a l IH]; [reflexivity|].
  cbn [evict_oldest]. destruct (m <? Z.of_nat (length (a :: l))) eqn:G.
  - apply Z.ltb_lt in G. rewrite IH. cbn [length] in *.
    replace (S (length l) - Z.to_nat m)%nat
      with (S (length l - Z.to_nat m))%nat by lia.
    reflexivity.
  - apply Z.ltb_ge in G. cbn [length] in *.
    replace (S (length l) - Z.to_nat m)%nat with 0%nat by lia.
    reflexivity.
Qed.

Lemma newest_length {A} m (l : list A) :
  0 <= m -> Z.of_nat (length (newest m l)) <= m.
Proof. intros H. unfold newest. rewrite length_skipn. lia. Qed.

Lemma newest_all {A} m (l : list A) :
  Z.of_nat (length l) <= m -> newest m l = l.
Proof.
  intros H. unfold newest.
  replace (length l - Z.to_nat m)%nat with 0%nat by lia. reflexivity.
Qed.

Lemma newest_snoc {A} m (l : list A) x :
  1 <= m -> newest m (l ++ [x]) = newest (m - 1) l ++ [x].
Proof.
  intros H. unfold newest. rewrite length_app. cbn [length].
  rewrite skipn_app.
  replace (length l + 1 - Z.to_nat m)%nat
    with (length l - Z.to_nat (m - 1))%nat by lia.
  replace (length l - Z.to_nat (m - 1) - length l)%nat with 0%nat by lia.
  reflexivity.
Qed.

Lemma newest_none {A} m (l : list A) : m <= 0 -> newest m l = [].
Proof.
  intros H. unfold newest.
  replace (length l - Z.to_nat m)%nat with (length l) by lia.
  apply skipn_all.
Qed.

Lemma newest_incl {A} m (l : list A) x : In x (newest m l) -> In x l.
Proof.
  unfold newest. intros H.
  rewrite <- (firstn_skipn (length l - Z.to_nat m) l).
  apply in_or_app. right. exact H.
Qed.

Lemma newest_absorb {A} m (a b : list A) :
  newest m (newest m a ++ b) = newest m (a ++ b).
Proof.
  unfold newest. rewrite !length_app, length_skipn.
  set (j := (length a - Z.to_nat m)%nat).
  set (k := (length a - j + length b - Z.to_nat m)%nat).
  replace (length a + length b - Z.to_nat m)%nat with (k + j)%nat
    by (unfold k, j; lia).
  rewrite <- skipn_skipn. f_equal.
  rewrite skipn_app.
  replace (j - length a)%nat with 0%nat by (unfold j; lia).
  reflexivity.
Qed.

Lemma filter_keeps_all {A} (p : A -> bool) l :
  Forall (fun x => p x = true) l -> filter p l = l.
Proof.
  induction 1 as [|x l Hx _ IH]; cbn; [reflexivity|].
  rewrite Hx, IH. reflexivity.
Qed.

Lemma filter_drops_all {A} (p : A -> bool) l :
  Forall (fun x => p x = false) l -> filter p l = [].
Proof.
  induction 1 as [|x l Hx _ IH]; cbn; [reflexivity|].
  rewrite Hx, IH. reflexivity.
Qed.

(** Pruning keeps exactly the resume points below the new label. *)
Lemma erase_remove_if_below lbl l :
  erase_remove_if (remove_if_callback lbl) l
  = filter (fun rp => label rp <? lbl) l.
Proof.
  unfold erase_remove_if, remove_if_callback. apply filter_ext.
  intros rp. symmetry. apply Z.ltb_antisym.
Qed.

Section WriteProtocol.

Variable P : Platform.

Lemma WriteOperation_estimating ops data s w :
  IsEstimating s = true ->
  WriteOperation P ops data s w
  = Some (true, estimated P (Z.of_nat (length ops)) (Z.of_nat (length data)) s, w).
Proof.
  intros E. unfold WriteOperation, estimated. run. rewrite E. cbn.
  destruct (op_count_max (header_ s)
            <? u64 (op_count (header_ s) + Z.of_nat (length ops)));
    reflexivity.
Qed.

(** A real write has three outcomes: refused for lack of room, failed in one
    of its two positioned writes, or committed with its records and its
    payload appended to the file. *)
Lemma WriteOperation_real ops data s w :
  IsEstimating s = false ->
  exists w',
    (WriteOperation P ops data s w = Some (false, s, w'))
    \/ ((op_count_max (header_ s)
           <? u64 (op_count (header_ s) + Z.of_nat (length ops))) = false
        /\ disk w'
           = disk w
             ++ WriteOps (GetOpOffset P (op_count (header_ s)) (header_ s)) ops
                :: match data with
                   | [] => []
                   | _ :: _ => [WriteData (next_data_pos_ s) data]
                   end
        /\ WriteOperation P ops data s w
           = Some (true,
                   committed (Z.of_nat (length ops)) (Z.of_nat (length data)) s,
                   w')).
Proof.
  intros E. unfold WriteOperation, committed. run. rewrite E.
  destruct (op_count_max (header_ s) <? _) eqn:G.
  - exists w. left. reflexivity.
  - destruct (syscall (WriteOps _ ops) w) as [[|] w1] eqn:S1; cbn.
    + apply syscall_true in S1.
      destruct data as [|b data']; cbn -[Z.of_nat].
      * exists w1. right. repeat split; assumption.
      * destruct (syscall (WriteData _ _) w1) as [[|] w2] eqn:S2; cbn -[Z.of_nat].
        -- apply syscall_true in S2.
           exists w2. right. repeat split.
           rewrite S2, S1, <- app_assoc. reflexivity.
        -- exists w2. left. reflexivity.
    + exists w1. left. reflexivity.
Qed.

(** Whatever a write does, the file only grows. *)
Lemma WriteOperation_appends ops data s w b s' w' :
  WriteOperation P ops data s w = Some (b, s', w') ->
  exists added, disk w' = disk w ++ added.
Proof.
  unfold WriteOperation. run.
  destruct (IsEstimating s).
  - destruct (op_count_max _ <? _); cbn; intros H; inversion H; subst;
      exists []; now rewrite app_nil_r.
  - destruct (op_count_max (header_ s) <? _).
    + intros H; inversion H; subst. exists []. now rewrite app_nil_r.
    + destruct (syscall (WriteOps _ ops) w) as [[|] w1] eqn:S1; cbn.
      * apply syscall_true in S1. destruct data as [|b0 d0]; cbn -[Z.of_nat].
        -- intros H; inversion H; subst. eauto.
        -- destruct (syscall (WriteData _ _) w1) as [[|] w2] eqn:S2;
             cbn -[Z.of_nat]; intros H; inversion H; subst.
           ++ apply syscall_true in S2. rewrite S2, S1, <- app_assoc. eauto.
           ++ apply syscall_false in S2. rewrite S2, S1. eauto.
      * apply syscall_false in S1. intros H; inversion H; subst.
        exists []. now rewrite app_nil_r.
Qed.

End WriteProtocol.

Section Claims.

Variable P : Platform.

(** The counters of an estimated write. *)
Lemma estimated_effect n size s :
  0 <= n -> 0 <= size ->
  let h := header_ s in
  let s' := estimated P n size s in
  op_count (header_ s') = u64 (op_count h + n)
  /\ op_count_max (header_ s')
     = Z.max (op_count_max h) (op_count (header_ s'))
  /\ next_data_pos_ s'
     = u64 (next_data_pos_ s
            + (op_count_max (header_ s') - op_count_max h)
              * sizeof_CowOperationV3 P
            + size)
  /\ (0 <= op_count h -> op_count h + n < 2 ^ 64 ->
      op_count (header_ s') = op_count h + n)
  /\ (0 <= next_data_pos_ s ->
      0 <= op_count_max h <= op_count (header_ s') ->
      0 <= sizeof_CowOperationV3 P ->
      next_data_pos_ s
      + (op_count (header_ s') - op_count_max h) * sizeof_CowOperationV3 P
      + size < 2 ^ 64 ->
      next_data_pos_ s'
      = next_data_pos_ s
        + (op_count (header_ s') - op_count_max h) * sizeof_CowOperationV3 P
        + size).
Proof.
  intros Hn Hs h s'. unfold s', estimated. fold h.
  set (oc := u64 (op_count h + n)).
  destruct (op_count_max h <? oc) eqn:G; cbn.
  - apply Z.ltb_lt in G.
    repeat split.
    + lia.
    + apply u64_growth.
    + intros. unfold oc. apply u64_small. lia.
    + intros. rewrite u64_growth. apply u64_small. nia.
  - apply Z.ltb_ge in G.
    repeat split.
    + lia.
    + f_equal. lia.
    + intros. unfold oc. apply u64_small. lia.
    + intros. replace oc with (op_count_max h) in * by lia.
      rewrite u64_small; lia.
Qed.

(** C9. In estimating mode [WriteOperation] returns success for every batch
    of records and payload, without touching the file: the operation count
    advances by the batch size, [op_count_max] grows to the new count when
    the batch exceeds it, and the payload cursor moves forward by the added
    table bytes plus the payload size (all in 64-bit arithmetic; exactly so
    when nothing overflows). *)
Theorem WriteOperation_estimating_never_fails ops data s w :
  IsEstimating s = true ->
  let n := Z.of_nat (length ops) in
  let size := Z.of_nat (length data) in
  let h := header_ s in
  exists s',
    WriteOperation P ops data s w = Some (true, s', w)
    /\ op_count (header_ s') = u64 (op_count h + n)
    /\ op_count_max (header_ s')
       = Z.max (op_count_max h) (op_count (header_ s'))
    /\ next_data_pos_ s'
       = u64 (next_data_pos_ s
              + (op_count_max (header_ s') - op_count_max h)
                * sizeof_CowOperationV3 P
              + size)
    /\ (0 <= op_count h -> op_count h + n < 2 ^ 64 ->
        op_count (header_ s') = op_count h + n)
    /\ (0 <= next_data_pos_ s ->
        0 <= op_count_max h <= op_count (header_ s') ->
        0 <= sizeof_CowOperationV3 P ->
        next_data_pos_ s
        + (op_count (header_ s') - op_count_max h) * sizeof_CowOperationV3 P
        + size < 2 ^ 64 ->
        next_data_pos_ s'
        = next_data_pos_ s
          + (op_count (header_ s') - op_count_max h) * sizeof_CowOperationV3 P
          + size).
Proof.
  intros E n size h.
  exists (estimated P n size s). split.
  { apply WriteOperation_estimating; assumption. }
  apply estimated_effect; apply Nat2Z.is_nonneg.
Qed.

(** C2. In real mode a batch that would take the committed operation count
    past [op_count_max] is refused: the call returns failure before any
    write is issued, and the session (operation count and payload cursor
    included) and the file are what they were. *)
Theorem WriteOperation_over_capacity_fails ops data s w :
  IsEstimating s = false ->
  0 <= op_count (header_ s) ->
  op_count (header_ s) + Z.of_nat (length ops) < 2 ^ 64 ->
  op_count_max (header_ s) < op_count (header_ s) + Z.of_nat (length ops) ->
  WriteOperation P ops data s w = Some (false, s, w)
  /\ forall b s' w',
       WriteOperation P ops data s w = Some (b, s', w') ->
       b = false
       /\ op_count (header_ s') = op_count (header_ s)
       /\ next_data_pos_ s' = next_data_pos_ s.
Proof.
  intros E H0 H1 H2.
  assert (R : WriteOperation P ops data s w = Some (false, s, w)).
  { unfold WriteOperation. run. rewrite E.
    rewrite u64_small by lia.
    apply Z.ltb_lt in H2. rewrite H2. reflexivity. }
  split; [exact R|].
  intros b s' w' Hr. rewrite R in Hr. injection Hr as <- <- <-. auto.
Qed.



(** C6. When the header can be read and the parser accepts the label,
    [OpenForAppend] succeeds, takes over the parser's resume points, sets
    the committed operation count to the number of recovered operations and
    the payload cursor to the payload start of the on-disk header plus the
    sum of the recovered operations' payload lengths. *)
Theorem OpenForAppend_reconstructs_cursor label h points ops s w :
  0 <= label ->
  ReadCowHeader P w = Some h ->
  CowParserV3_Parse P w h label = Some (points, ops) ->
  exists s',
    OpenForAppend P label s w = Some (true, s', w)
    /\ next_data_pos_ s' = u64 (GetDataOffset P h + payload_total ops)
    /\ op_count (header_ s') = u64 (Z.of_nat (length ops))
    /\ resume_points_ s' = points
    /\ (Forall (fun op => 0 <= data_length op) ops ->
        GetDataOffset P h + payload_total ops < 2 ^ 64 ->
        next_data_pos_ s' = GetDataOffset P h + payload_total ops)
    /\ (Z.of_nat (length ops) < 2 ^ 64 ->
        op_count (header_ s') = Z.of_nat (length ops)).
Proof.
  intros Hl Hh Hp.
  unfold OpenForAppend. run. rewrite Hh.
  apply Z.leb_le in Hl. rewrite Hl. cbn.
  rewrite Hp. cbn -[Z.of_nat].
  eexists. split; [reflexivity|]. cbn -[Z.of_nat].
  assert (D : GetDataOffset P h = u64 (GetDataOffset P h)).
  { symmetry. apply u64_small. unfold GetDataOffset, GetOpOffset.
    apply u64_range. }
  assert (E : advance_over ops (GetDataOffset P h)
              = u64 (GetDataOffset P h + payload_total ops)).
  { rewrite D at 1. apply advance_over_total. }
  unfold GetDataOffset at 1 in E. cbn in E.
  unfold GetDataOffset at 1. cbn.
  repeat split.
  - exact E.
  - intros Hpos Hfit. unfold GetDataOffset at 1. cbn. rewrite E.
    apply u64_small. split; [|exact Hfit].
    pose proof (payload_total_nonneg ops Hpos).
    pose proof (u64_range (GetDataOffset P h)). rewrite <- D in *. lia.
  - intros Hfit. apply u64_small. lia.
Qed.


(** [EmitLabel] on a well-formed session always returns, and whatever it
    returns the session is [labelled]. *)
Lemma EmitLabel_runs lbl s w :
  well_formed P s ->
  exists b w', EmitLabel P lbl s w = Some (b, labelled lbl s, w').
Proof.
  intros [Hs Hm]. unfold EmitLabel, labelled. run. cbn.
  set (rps := evict_oldest _ _).
  assert (Hb : (Z.of_nat (length rps) <=? resume_point_max (header_ s)) = true).
  { apply Z.leb_le. unfold rps. rewrite evict_oldest_newest.
    apply newest_length. exact Hm. }
  rewrite Hb. cbn.
  destruct (syscall (WriteResume _ rps) w) as [[|] w1]; cbn.
  - unfold Finalize. run. cbn. rewrite Hs, Z.leb_refl. cbn.
    destruct (syscall (WriteHeader _ _ _) w1) as [[|] w2]; cbn.
    + unfold Sync. run. destruct (syscall Fsync w2) as [b w3].
      exists b, w3. reflexivity.
    + exists false, w2. reflexivity.
  - exists false, w1. reflexivity.
Qed.

Lemma labelled_well_formed lbl s : well_formed P s -> well_formed P (labelled lbl s).
Proof. intros H. exact H. Qed.

(** The header's [resume_point_count] is one more after every call. *)
Lemma labelled_resume_point_count lbl s :
  resume_point_count (header_ (labelled lbl s))
  = u32 (resume_point_count (header_ s) + 1).
Proof. reflexivity. Qed.

(** C4. [EmitLabel L] leaves the resume points below [L], then the pair of
    [L] and the committed operation count, trimmed from the front to the
    capacity.  A second [EmitLabel L] right after it leaves the vector as the
    first one did: same entries, same length, one entry for [L] at most. *)
Theorem EmitLabel_twice_replaces lbl s w :
  well_formed P s ->
  exists b1 s1 w1 b2 s2 w2,
    EmitLabel P lbl s w = Some (b1, s1, w1)
    /\ EmitLabel P lbl s1 w1 = Some (b2, s2, w2)
    /\ resume_points_ s1
       = evict_oldest (resume_point_max (header_ s))
           (filter (fun rp => label rp <? lbl) (resume_points_ s)
            ++ [{| label := lbl; op_index := op_count (header_ s) |}])
    /\ resume_points_ s2 = resume_points_ s1
    /\ length (resume_points_ s2) = length (resume_points_ s1)
    /\ (length (filter (fun rp => (label rp =? lbl)%Z) (resume_points_ s2)) <= 1)%nat.
Proof.
  intros Hwf.
  destruct (EmitLabel_runs lbl s w Hwf) as (b1 & w1 & R1).
  destruct (EmitLabel_runs lbl (labelled lbl s) w1 (labelled_well_formed lbl s Hwf))
    as (b2 & w2 & R2).
  exists b1, (labelled lbl s), w1, b2, (labelled lbl (labelled lbl s)), w2.
  split; [exact R1|]. split; [exact R2|].
  destruct Hwf as [_ Hm].
  set (m := resume_point_max (header_ s)) in *.
  set (x := {| label := lbl; op_index := op_count (header_ s) |}).
  set (F := filter (fun rp => label rp <? lbl) (resume_points_ s)).
  assert (E1 : resume_points_ (labelled lbl s) = newest m (F ++ [x])).
  { unfold labelled. cbn. rewrite evict_oldest_newest, erase_remove_if_below.
    reflexivity. }
  assert (HF : Forall (fun rp => (label rp <? lbl) = true) F).
  { apply Forall_forall. intros rp Hin. unfold F in Hin.
    apply filter_In in Hin. tauto. }
  assert (E2 : resume_points_ (labelled lbl (labelled lbl s))
               = resume_points_ (labelled lbl s)).
  { unfold labelled at 1. cbn -[labelled].
    rewrite evict_oldest_newest, erase_remove_if_below, E1.
    change (resume_point_max (header_ (labelled lbl s))) with m.
    change (op_count (header_ (labelled lbl s))) with (op_count (header_ s)).
    fold x.
    destruct (Z.eq_dec m 0) as [Z0|NZ].
    - rewrite !newest_none by lia. reflexivity.
    - rewrite (newest_snoc m F x) by lia.
      rewrite filter_app. cbn [filter label x].
      rewrite Z.ltb_irrefl, app_nil_r.
      rewrite filter_keeps_all.
      + rewrite newest_all; [reflexivity|].
        rewrite length_app. cbn [length].
        pose proof (newest_length (m - 1) F). lia.
      + apply Forall_forall. intros rp Hin. apply newest_incl in Hin.
        rewrite Forall_forall in HF. auto. }
  split.
  { rewrite E1, evict_oldest_newest. reflexivity. }
  split; [exact E2|]. split; [rewrite E2; reflexivity|].
  rewrite E2, E1.
  destruct (Z.eq_dec m 0) as [Z0|NZ].
  - rewrite newest_none by lia. cbn. lia.
  - rewrite (newest_snoc m F x) by lia. rewrite filter_app, length_app.
    rewrite filter_drops_all.
    + cbn. destruct (lbl =? lbl); cbn; lia.
    + apply Forall_forall. intros rp Hin. apply newest_incl in Hin.
      rewrite Forall_forall in HF. specialize (HF rp Hin).
      apply Z.ltb_lt in HF. apply Z.eqb_neq. lia.
Qed.


Lemma Forall_firstn_keeps {A} (Q : A -> Prop) k l :
  Forall Q l -> Forall Q (firstn k l).
Proof.
  intros H. revert k. induction H; intros [|k]; cbn; constructor; auto.
Qed.

Lemma StronglySorted_firstn k (l : list Z) :
  StronglySorted Z.lt l -> StronglySorted Z.lt (firstn k l).
Proof.
  intros H. revert k. induction H as [|a l Hs IH Ha]; intros [|k]; cbn;
    constructor; auto using Forall_firstn_keeps.
Qed.

(** A run of [EmitLabel] calls: it returns, the vector stays within the
    capacity, and with increasing labels it is the capacity's worth of
    newest entries. *)
Lemma EmitLabel_run_newest ls : forall s w,
  well_formed P s ->
  Z.of_nat (length (resume_points_ s)) <= resume_point_max (header_ s) ->
  exists oks s' w',
    replay P (map CallEmitLabel ls) s w = Some (oks, s', w')
    /\ Z.of_nat (length (resume_points_ s')) <= resume_point_max (header_ s)
    /\ (StronglySorted Z.lt ls ->
        Forall (fun rp => Forall (fun l => label rp < l) ls) (resume_points_ s) ->
        resume_points_ s'
        = newest (resume_point_max (header_ s))
            (resume_points_ s
             ++ map (fun l => {| label := l; op_index := op_count (header_ s) |})
                  ls)).
Proof.
  induction ls as [|l ls IH]; intros s w Hwf Hlen.
  - exists [], s, w. cbn. split; [reflexivity|]. split; [exact Hlen|].
    intros _ _. rewrite app_nil_r, newest_all; [reflexivity | exact Hlen].
  - destruct (EmitLabel_runs l s w Hwf) as (b & w1 & R).
    assert (Hlen1 : Z.of_nat (length (resume_points_ (labelled l s)))
                    <= resume_point_max (header_ (labelled l s))).
    { unfold labelled. cbn. rewrite evict_oldest_newest.
      apply newest_length. apply Hwf. }
    destruct (IH (labelled l s) w1 (labelled_well_formed l s Hwf) Hlen1)
      as (oks & s' & w' & R' & Hb & Hn).
    exists (b :: oks), s', w'.
    split.
    { cbn [map replay perform]. unfold bind at 1. rewrite R.
      unfold bind at 1. rewrite R'. reflexivity. }
    split; [exact Hb|].
    intros Hsorted Hbelow.
    inversion Hsorted as [|? ? Hs' Hl]; subst.
    assert (Hall : Forall (fun rp => (label rp <? l) = true) (resume_points_ s)).
    { eapply Forall_impl; [|exact Hbelow]. cbn. intros rp Hrp.
      inversion Hrp; subst. apply Z.ltb_lt. assumption. }
    assert (E1 : resume_points_ (labelled l s)
                 = newest (resume_point_max (header_ s))
                     (resume_points_ s
                      ++ [{| label := l; op_index := op_count (header_ s) |}])).
    { unfold labelled. cbn.
      rewrite evict_oldest_newest, erase_remove_if_below, filter_keeps_all;
        [reflexivity | exact Hall]. }
    rewrite Hn.
    + change (resume_point_max (header_ (labelled l s)))
        with (resume_point_max (header_ s)).
      change (op_count (header_ (labelled l s))) with (op_count (header_ s)).
      rewrite E1, newest_absorb, <- app_assoc. reflexivity.
    + exact Hs'.
    + apply Forall_forall. intros rp Hin. rewrite E1 in Hin.
      apply newest_incl in Hin. apply in_app_or in Hin.
      destruct Hin as [Hin | [<- | []]].
      * rewrite Forall_forall in Hbelow. specialize (Hbelow rp Hin).
        inversion Hbelow; assumption.
      * exact Hl.
Qed.

(** C5. Along any sequence of [EmitLabel] calls the number of resume points
    is at most [resume_point_max] after every call; when the labels
    increase, what is kept after [k] calls is the newest [resume_point_max]
    of all entries so far, so a full vector loses its front entry to each
    new label. *)
Theorem EmitLabel_bounded_oldest_first ls k s w :
  well_formed P s ->
  Z.of_nat (length (resume_points_ s)) <= resume_point_max (header_ s) ->
  let m := resume_point_max (header_ s) in
  let entry l := {| label := l; op_index := op_count (header_ s) |} in
  exists oks s' w',
    replay P (map CallEmitLabel (firstn k ls)) s w = Some (oks, s', w')
    /\ Z.of_nat (length (resume_points_ s')) <= m
    /\ (StronglySorted Z.lt ls ->
        Forall (fun rp => Forall (fun l => label rp < l) ls) (resume_points_ s) ->
        resume_points_ s'
        = newest m (resume_points_ s ++ map entry (firstn k ls))
        /\ forall l, Z.of_nat (length (resume_points_ s)) = m -> 0 < m ->
             firstn k ls = [l] ->
             resume_points_ s' = tl (resume_points_ s) ++ [entry l]).
Proof.
  intros Hwf Hlen m entry.
  destruct (EmitLabel_run_newest (firstn k ls) s w Hwf Hlen)
    as (oks & s' & w' & R & Hb & Hn).
  exists oks, s', w'. split; [exact R|]. split; [exact Hb|].
  intros Hsorted Hbelow.
  assert (E : resume_points_ s'
              = newest m (resume_points_ s ++ map entry (firstn k ls))).
  { apply Hn.
    - apply StronglySorted_firstn. exact Hsorted.
    - eapply Forall_impl; [|exact Hbelow]. cbn. intros rp.
      apply Forall_firstn_keeps. }
  split; [exact E|].
  intros l Hfull Hpos Hone. rewrite E, Hone. cbn [map].
  rewrite newest_snoc by lia. f_equal.
  unfold newest.
  replace (length (resume_points_ s) - Z.to_nat (m - 1))%nat with 1%nat by lia.
  destruct (resume_points_ s); reflexivity.
Qed.


(** ** The compressed path in real mode *)

Lemma span_S i n : span i (S n) = i :: span (i + 1) n.
Proof.
  unfold span. cbn [seq map]. f_equal; [lia|].
  rewrite <- seq_shift, map_map. apply map_ext. intros j. lia.
Qed.

Lemma committed_at_counts n size c p s :
  committed n size (at_counts c p s)
  = at_counts (u64 (c + n)) (u64 (p + size)) s.
Proof. reflexivity. Qed.

Lemma at_counts_same s :
  at_counts (op_count (header_ s)) (next_data_pos_ s) s = s.
Proof. destruct s as [o h c k t p r d]. destruct h. reflexivity. Qed.

(** One turn of the loop, in terms of what it records and stores. *)
Lemma EmitBlocks_loop_S k n i new_block_start data old_block offset type c0 p0 s w :
  EmitBlocks_loop P k (S n) i new_block_start data old_block offset type c0 p0
    s w
  = match
      WriteOperation P
        [{| op_type := type;
            new_block := u64 (new_block_start + i);
            source := source_of type old_block offset (block_size (header_ s))
                        i (next_data_pos_ s);
            data_length := stored_length k (block_size (header_ s)) i data |}]
        (stored_bytes k (block_size (header_ s)) i data) s w
    with
    | Some (true, s1, w1) =>
        EmitBlocks_loop P k n (i + 1) new_block_start data old_block offset
          type c0 p0 s1 w1
    | Some (false, s1, w1) => Some (false, at_counts c0 p0 s1, w1)
    | None => None
    end.
Proof.
  cbn [EmitBlocks_loop]. unfold bind at 1, this at 1. unfold WriteOperation1.
  change (bind ?c ?f s w) with (match c s w with
                                | Some (a, s', w') => f a s' w'
                                | None => None
                                end).
  unfold stored_bytes, stored_length, chunk. cbn [data_length].
  destruct (WriteOperation P _ _ s w) as [[[[|] s1] w1]|]; reflexivity.
Qed.

Lemma EmitBlocks_loop_real k new_block_start data old_block offset type c0 p0 s0 :
  IsEstimating s0 = false ->
  let bs := block_size (header_ s0) in
  forall n i c p w,
  exists b s' w' added,
    EmitBlocks_loop P k n i new_block_start data old_block offset type c0 p0
      (at_counts c p s0) w = Some (b, s', w')
    /\ disk w' = disk w ++ added
    /\ ((b = false /\ s' = at_counts c0 p0 s0)
        \/ (b = true
            /\ (let cp := run_counts
                            (map (fun j => Z.of_nat (length (stored_bytes k bs j data)))
                               (span i n)) (c, p) in
                s' = at_counts (fst cp) (snd cp) s0)
            /\ map data_length (records_of added)
               = map (fun j => stored_length k bs j data) (span i n)
            /\ concat (payloads_of added)
               = concat (map (fun j => stored_bytes k bs j data) (span i n)))).
Proof.
  intros E bs. induction n as [|n IH]; intros i c p w.
  - exists true, (at_counts c p s0), w, []. cbn.
    rewrite app_nil_r. split; [reflexivity|]. split; [reflexivity|].
    right. repeat split; reflexivity.
  - rewrite EmitBlocks_loop_S.
    change (block_size (header_ (at_counts c p s0))) with bs.
    match goal with
    | |- context [WriteOperation P ?o ?d _ _] => set (ops := o); set (payload := d)
    end.
    destruct (WriteOperation_real P ops payload (at_counts c p s0) w E)
      as (w1 & [R | (_ & D & R)]); rewrite R.
    + exists false, (at_counts c0 p0 s0), w1.
      assert (exists added, disk w1 = disk w ++ added) as [added Ha].
      { eapply WriteOperation_appends. exact R. }
      exists added. split; [reflexivity|]. split; [exact Ha|]. left. split; reflexivity.
    + rewrite committed_at_counts.
      destruct (IH (i + 1) (u64 (c + Z.of_nat (length ops)))
                  (u64 (p + Z.of_nat (length payload))) w1)
        as (b & s' & w' & added & R' & D' & Hcases).
      exists b, s', w'. eexists. split; [exact R'|].
      split; [rewrite D', D, <- app_assoc; reflexivity|].
      destruct Hcases as [[-> ->] | (-> & Hs & Hr & Hp)].
      * left. split; reflexivity.
      * right. split; [reflexivity|]. rewrite span_S. cbn [map run_counts fold_left fst snd].
        split; [exact Hs|].
        rewrite records_of_app, payloads_of_app, map_app, concat_app.
        rewrite Hr, Hp. cbn [app].
        rewrite records_of_ops, records_of_tail, app_nil_r, payloads_of_tail.
        split; reflexivity.
Qed.

Lemma EmitBlocks_no_compressor new_block_start data old_block offset type s w :
  is_none (algorithm (compression_ s)) = false ->
  compressor_ s = None ->
  EmitBlocks P new_block_start data old_block offset type s w
  = Some (false, s, w).
Proof.
  intros Hn Hk. unfold EmitBlocks. run. rewrite Hn, Hk. reflexivity.
Qed.

Lemma EmitBlocks_compressed_loop new_block_start data old_block offset type k s w :
  is_none (algorithm (compression_ s)) = false ->
  compressor_ s = Some k ->
  block_size (header_ s) <> 0 ->
  EmitBlocks P new_block_start data old_block offset type s w
  = EmitBlocks_loop P k
      (Z.to_nat (Z.of_nat (length data) / block_size (header_ s))) 0
      new_block_start data old_block offset type
      (op_count (header_ s)) (next_data_pos_ s) s w.
Proof.
  intros Hn Hk Hbs. unfold EmitBlocks. run. rewrite Hn, Hk.
  apply Z.eqb_neq in Hbs. rewrite Hbs. reflexivity.
Qed.

Lemma EmitBlocks_compressed_real new_block_start data old_block offset type k s w :
  is_none (algorithm (compression_ s)) = false ->
  compressor_ s = Some k ->
  IsEstimating s = false ->
  block_size (header_ s) <> 0 ->
  let bs := block_size (header_ s) in
  let n := Z.to_nat (Z.of_nat (length data) / bs) in
  exists b s' w' added,
    EmitBlocks P new_block_start data old_block offset type s w
    = Some (b, s', w')
    /\ disk w' = disk w ++ added
    /\ ((b = false /\ s' = s)
        \/ (b = true
            /\ (let cp := run_counts
                            (map (fun j => Z.of_nat (length (stored_bytes k bs j data)))
                               (span 0 n))
                            (op_count (header_ s), next_data_pos_ s) in
                s' = at_counts (fst cp) (snd cp) s)
            /\ map data_length (records_of added)
               = map (fun j => stored_length k bs j data) (span 0 n)
            /\ concat (payloads_of added)
               = concat (map (fun j => stored_bytes k bs j data) (span 0 n)))).
Proof.
  intros Hn Hk E Hbs bs n.
  rewrite (EmitBlocks_compressed_loop _ _ _ _ _ k) by assumption.
  pose proof (EmitBlocks_loop_real k new_block_start data old_block offset type
                (op_count (header_ s)) (next_data_pos_ s) s E n 0
                (op_count (header_ s)) (next_data_pos_ s) w) as H.
  rewrite at_counts_same in H. exact H.
Qed.

(** ** The compressed path in estimating mode *)

Lemma estimated_IsEstimating n size s :
  IsEstimating (estimated P n size s) = IsEstimating s.
Proof.
  unfold estimated. destruct (op_count_max (header_ s) <? _); reflexivity.
Qed.

Lemma estimated_block_size n size s :
  block_size (header_ (estimated P n size s)) = block_size (header_ s).
Proof.
  unfold estimated. destruct (op_count_max (header_ s) <? _); reflexivity.
Qed.

Lemma EmitBlocks_loop_estimating k new_block_start data old_block offset type c0 p0 :
  forall n i s w,
  IsEstimating s = true ->
  EmitBlocks_loop P k n i new_block_start data old_block offset type c0 p0 s w
  = Some (true,
          estimate_all P
            (map (fun j => Z.of_nat (length (stored_bytes k (block_size (header_ s)) j data)))
               (span i n)) s,
          w).
Proof.
  induction n as [|n IH]; intros i s w E.
  - reflexivity.
  - rewrite EmitBlocks_loop_S, WriteOperation_estimating by assumption.
    rewrite IH by (rewrite estimated_IsEstimating; assumption).
    rewrite estimated_block_size, span_S. reflexivity.
Qed.


Lemma span_indices n : span 0 (Z.to_nat n) = indices n.
Proof. unfold span, indices. apply map_ext. intros j. lia. Qed.

Lemma indices_range n i : In i (indices n) -> 0 <= i < n.
Proof.
  unfold indices. intros H. apply in_map_iff in H as (j & <- & Hj).
  apply in_seq in Hj. lia.
Qed.


(** C7. With compression enabled every block of a request is compressed on
    its own, and on success the records that reach the file carry, block by
    block, the compressed length together with the compressed bytes when
    these are strictly fewer than the block size, and the block size
    together with the raw block otherwise. *)
Theorem EmitBlocks_compresses_per_block
    new_block_start data old_block offset type k s w s' w' :
  is_none (algorithm (compression_ s)) = false ->
  compressor_ s = Some k ->
  IsEstimating s = false ->
  0 < block_size (header_ s) <= uint16_max ->
  Z.of_nat (length data) < 2 ^ 64 ->
  EmitBlocks P new_block_start data old_block offset type s w
  = Some (true, s', w') ->
  let bs := block_size (header_ s) in
  let num_blocks := Z.of_nat (length data) / bs in
  exists added,
    disk w' = disk w ++ added
    /\ map data_length (records_of added)
       = map (fun i => policy_length k bs (nth_block bs i data))
           (indices num_blocks)
    /\ concat (payloads_of added)
       = concat (map (fun i => policy_bytes k bs (nth_block bs i data))
                   (indices num_blocks))
    /\ Forall (fun i => length (nth_block bs i data) = Z.to_nat bs)
         (indices num_blocks).
Proof.
  intros Hn Hk E Hbs Hsize R bs num_blocks.
  unfold uint16_max in Hbs.
  destruct (EmitBlocks_compressed_real new_block_start data old_block
              offset type k s w Hn Hk E ltac:(lia))
    as (b & s1 & w1 & added & R1 & D & Hcases).
  rewrite R in R1. injection R1 as <- <- <-.
  destruct Hcases as [[Hf _] | (_ & _ & Hr & Hp)]; [discriminate|].
  fold bs in Hr, Hp. fold num_blocks in Hr, Hp.
  rewrite span_indices in Hr, Hp.
  assert (Hidx : forall i, In i (indices num_blocks) ->
                 0 <= bs * i /\ bs * i + bs <= Z.of_nat (length data)).
  { intros i Hi. apply indices_range in Hi.
    assert (bs * num_blocks <= Z.of_nat (length data)).
    { apply Z.mul_div_le. lia. }
    fold bs in Hbs. nia. }
  assert (Hchunk : forall i, In i (indices num_blocks) ->
                   chunk bs i data = nth_block bs i data).
  { intros i Hi. unfold chunk, nth_block.
    rewrite u64_small; [reflexivity|]. specialize (Hidx i Hi). lia. }
  assert (H16 : u16 bs = bs) by (apply u16_small; fold bs in Hbs; lia).
  exists added. split; [exact D|]. split; [|split].
  - rewrite Hr. apply map_ext_in. intros i Hi.
    unfold stored_length, policy_length. cbn zeta.
    rewrite Hchunk, H16 by assumption. reflexivity.
  - rewrite Hp. f_equal. apply map_ext_in. intros i Hi.
    unfold stored_bytes, stored_length, policy_bytes. cbn zeta.
    rewrite Hchunk, H16 by assumption.
    destruct (Z.of_nat (length (k (nth_block bs i data))) <? bs).
    + rewrite Nat2Z.id. apply firstn_all.
    + unfold nth_block. rewrite u64_small; [reflexivity|].
      specialize (Hidx i Hi). lia.
  - apply Forall_forall. intros i Hi. specialize (Hidx i Hi).
    unfold nth_block. rewrite length_firstn, length_skipn. lia.
Qed.


(** ** Estimation against the real run *)

Lemma u64_decompose x : exists k, u64 x = x + k * 2 ^ 64.
Proof.
  exists (- (x / 2 ^ 64)). unfold u64, wrap.
  pose proof (Z.div_mod x (2 ^ 64)). lia.
Qed.

Lemma syscall_reliable ev w :
  reliable w -> exists w', syscall ev w = (true, w') /\ reliable w'.
Proof.
  unfold reliable, syscall. intros H.
  destruct (io_script w) as [|b rest] eqn:S.
  - eexists. split; [reflexivity|]. cbn. constructor.
  - inversion H; subst. eexists. split; [reflexivity|]. cbn. assumption.
Qed.

Lemma WriteOperation_real_reliable ops data r w :
  IsEstimating r = false ->
  reliable w ->
  u64 (op_count (header_ r) + Z.of_nat (length ops)) <= op_count_max (header_ r) ->
  exists w',
    WriteOperation P ops data r w
    = Some (true, committed (Z.of_nat (length ops)) (Z.of_nat (length data)) r, w')
    /\ reliable w'.
Proof.
  intros E Hw G. unfold WriteOperation, committed. run. rewrite E.
  apply Z.ltb_ge in G. rewrite G.
  destruct (syscall_reliable (WriteOps (GetOpOffset P (op_count (header_ r)) (header_ r)) ops) w Hw)
    as (w1 & -> & Hw1). cbn.
  destruct data as [|b0 d0]; cbn -[Z.of_nat].
  - exists w1. split; [reflexivity | assumption].
  - destruct (syscall_reliable (WriteData (next_data_pos_ r) (b0 :: d0)) w1 Hw1)
      as (w2 & -> & Hw2). cbn -[Z.of_nat].
    exists w2. split; [reflexivity | assumption].
Qed.

Lemma mirrors_op_count M e r :
  mirrors P M e r -> op_count (header_ e) = op_count (header_ r).
Proof.
  intros (_ & _ & H & _). apply (f_equal op_count) in H. exact H.
Qed.

Lemma mirrors_block_size M e r :
  mirrors P M e r -> block_size (header_ e) = block_size (header_ r).
Proof.
  intros (_ & _ & H & _). apply (f_equal block_size) in H. exact H.
Qed.

(** One write on both sides keeps the two sessions in step. *)
Lemma mirrors_write M e r n size :
  mirrors P M e r ->
  0 <= op_count (header_ e) ->
  op_count (header_ e) + n < 2 ^ 64 ->
  0 <= n ->
  mirrors P M (estimated P n size e) (committed n size r).
Proof.
  intros (Ee & Er & Hh & HM & Hc & Hk & Hr & Hpos & Hre & Hrr) H0 H1 Hn.
  pose proof (f_equal op_count Hh) as Hoc. cbn in Hoc.
  unfold mirrors, estimated, committed.
  rewrite (u64_small (op_count (header_ e) + n)) by lia.
  rewrite <- Hoc.
  rewrite (u64_small (op_count (header_ e) + n)) by lia.
  set (oc := op_count (header_ e) + n).
  apply u64_eq_iff in Hpos. destruct Hpos as [k0 Hpos].
  destruct (op_count_max (header_ e) <? oc) eqn:G; cbn -[u64].
  - repeat split; try assumption; try apply u64_range.
    + change (set_op_count oc (set_op_count_max 0 (header_ e))
              = set_op_count oc (set_op_count_max 0 (header_ r))).
      rewrite Hh. reflexivity.
    + rewrite u64_growth. apply u64_eq_iff.
      destruct (u64_decompose (next_data_pos_ e
                  + (oc - op_count_max (header_ e)) * sizeof_CowOperationV3 P
                  + size)) as [k1 ->].
      destruct (u64_decompose (next_data_pos_ r + size)) as [k2 ->].
      exists (k0 + k1 - k2). lia.
  - repeat split; try assumption; try apply u64_range.
    + change (set_op_count oc (set_op_count_max 0 (header_ e))
              = set_op_count oc (set_op_count_max 0 (header_ r))).
      rewrite Hh. reflexivity.
    + apply u64_eq_iff.
      destruct (u64_decompose (next_data_pos_ e + size)) as [k1 ->].
      destruct (u64_decompose (next_data_pos_ r + size)) as [k2 ->].
      exists (k0 + k1 - k2). lia.
Qed.


Lemma estimated_op_count n size s :
  op_count (header_ (estimated P n size s)) = u64 (op_count (header_ s) + n).
Proof.
  unfold estimated. destruct (op_count_max (header_ s) <? _); reflexivity.
Qed.

Lemma estimated_same_setup n size s : same_setup s (estimated P n size s).
Proof.
  unfold same_setup, estimated.
  destruct (op_count_max (header_ s) <? _); repeat split.
Qed.

Lemma same_setup_refl s : same_setup s s.
Proof. repeat split. Qed.

Lemma same_setup_trans a b c : same_setup a b -> same_setup b c -> same_setup a c.
Proof.
  unfold same_setup. intros (? & ? & ? & ? & ? & ?) (? & ? & ? & ? & ? & ?).
  repeat split; congruence.
Qed.

Lemma same_setup_well_formed a b :
  same_setup a b -> well_formed P a -> well_formed P b.
Proof.
  unfold same_setup, well_formed. intros (_ & Hp & Hm & _) [H1 H2].
  rewrite <- Hp, <- Hm. split; assumption.
Qed.

Lemma same_setup_records_in a b c :
  same_setup a b -> records_in b c = records_in a c.
Proof.
  unfold same_setup, records_in. intros (Hb & _ & _ & Hc & Hk & _).
  rewrite Hb, Hc, Hk. reflexivity.
Qed.

Lemma mirrors_well_formed M e r :
  mirrors P M e r -> well_formed P e -> well_formed P r.
Proof.
  intros (_ & _ & H & _) [H1 H2]. unfold well_formed.
  pose proof (f_equal prefix H) as Hp. pose proof (f_equal resume_point_max H) as Hm.
  cbn in Hp, Hm. rewrite <- Hp, <- Hm. split; assumption.
Qed.

(** A write replayed on both sides. *)
Lemma WriteOperation_mirrors M e r w_r (ops_e ops_r : list CowOperationV3)
    (data : list byte) :
  mirrors P M e r ->
  reliable w_r ->
  length ops_r = length ops_e ->
  0 <= op_count (header_ e) ->
  op_count (header_ e) + Z.of_nat (length ops_e) <= M ->
  M < 2 ^ 64 ->
  let n := Z.of_nat (length ops_e) in
  let size := Z.of_nat (length data) in
  exists w_r',
    WriteOperation P ops_r data r w_r = Some (true, committed n size r, w_r')
    /\ reliable w_r'
    /\ mirrors P M (estimated P n size e) (committed n size r)
    /\ op_count (header_ (estimated P n size e)) = op_count (header_ e) + n.
Proof.
  intros Hm Hw Hlen H0 H1 H2 n size.
  assert (Hn : 0 <= n) by apply Nat2Z.is_nonneg.
  pose proof (mirrors_op_count M e r Hm) as Hoc.
  destruct Hm as (Ee & Er & Hh & HM & Hrest).
  destruct (WriteOperation_real_reliable ops_r data r w_r Er Hw) as (w' & R & Hw').
  { rewrite Hlen, <- Hoc, HM. fold n. rewrite u64_small; lia. }
  exists w'. rewrite Hlen in R. split; [exact R|]. split; [exact Hw'|].
  split.
  - apply mirrors_write; try lia. repeat split; try assumption; apply Hrest.
  - rewrite estimated_op_count. apply u64_small. lia.
Qed.

Lemma estimate_all_same_setup sizes : forall s, same_setup s (estimate_all P sizes s).
Proof.
  induction sizes as [|x sizes IH]; intros s; cbn.
  - apply same_setup_refl.
  - eapply same_setup_trans; [apply estimated_same_setup | apply IH].
Qed.

(** The compressed loop replayed on both sides. *)
Lemma EmitBlocks_loop_mirrors k new_block_start data old_block offset type c0 p0 M :
  forall n i e r w_r,
  mirrors P M e r ->
  reliable w_r ->
  0 <= op_count (header_ e) ->
  op_count (header_ e) + Z.of_nat n <= M ->
  M < 2 ^ 64 ->
  let sizes :=
    map (fun j => Z.of_nat (length (stored_bytes k (block_size (header_ e)) j data)))
      (span i n) in
  exists r' w_r',
    EmitBlocks_loop P k n i new_block_start data old_block offset type c0 p0
      r w_r = Some (true, r', w_r')
    /\ reliable w_r'
    /\ mirrors P M (estimate_all P sizes e) r'
    /\ op_count (header_ (estimate_all P sizes e))
       = op_count (header_ e) + Z.of_nat n.
Proof.
  induction n as [|n IH]; intros i e r w_r Hm Hw H0 H1 H2 sizes.
  - exists r, w_r. cbn [EmitBlocks_loop]. unfold sizes, span. cbn [seq map estimate_all fold_left].
    split; [reflexivity|]. split; [exact Hw|]. split; [exact Hm|]. cbn. lia.
  - rewrite EmitBlocks_loop_S.
    rewrite <- (mirrors_block_size M e r Hm).
    match goal with
    | |- context [WriteOperation P ?o ?d r w_r] => set (ops := o); set (payload := d)
    end.
    destruct (WriteOperation_mirrors M e r w_r ops ops payload Hm Hw eq_refl H0)
      as (w1 & R & Hw1 & Hm1 & Hoc1);
      [unfold ops; cbn [length]; lia | lia |].
    rewrite R. unfold ops in Hm1, Hoc1. cbn [length] in Hm1, Hoc1.
    destruct (IH (i + 1) _ _ w1 Hm1 Hw1) as (r' & w' & R' & Hw' & Hm' & Hoc');
      [lia | lia | lia |].
    exists r', w'. split; [exact R'|]. split; [exact Hw'|].
    unfold sizes. rewrite span_S. cbn [map estimate_all fold_left].
    rewrite estimated_block_size in Hm', Hoc'.
    change (Z.of_nat 1) with 1 in *. unfold payload in *.
    split; [exact Hm'|].
    etransitivity; [exact Hoc'|]. rewrite Hoc1. lia.
Qed.


Lemma EmitLabel_reliable lbl s w :
  well_formed P s ->
  reliable w ->
  exists w', EmitLabel P lbl s w = Some (true, labelled lbl s, w') /\ reliable w'.
Proof.
  intros [Hs Hm] Hw. unfold EmitLabel, labelled. run. cbn.
  set (rps := evict_oldest _ _).
  assert (Hb : (Z.of_nat (length rps) <=? resume_point_max (header_ s)) = true).
  { apply Z.leb_le. unfold rps. rewrite evict_oldest_newest.
    apply newest_length. exact Hm. }
  rewrite Hb. cbn.
  match goal with
  | |- context [syscall ?ev w] =>
      destruct (syscall_reliable ev w Hw) as (w1 & -> & Hw1)
  end. cbn.
  unfold Finalize. run. cbn. rewrite Hs, Z.leb_refl. cbn.
  match goal with
  | |- context [syscall ?ev w1] =>
      destruct (syscall_reliable ev w1 Hw1) as (w2 & -> & Hw2)
  end. cbn.
  unfold Sync. run.
  destruct (syscall_reliable Fsync w2 Hw2) as (w3 & -> & Hw3).
  exists w3. split; [reflexivity | assumption].
Qed.

(** The session as [EmitSequenceData] leaves it, whatever it returns. *)
Lemma EmitSequenceData_runs data s w :
  exists b w',
    EmitSequenceData P data s w
    = Some (b,
            with_header
              (set_sequence_data_count (u64 (Z.of_nat (length data))) (header_ s)) s,
            w')
    /\ (reliable w -> reliable w').
Proof.
  unfold EmitSequenceData. run. cbn -[Z.of_nat].
  match goal with
  | |- context [syscall ?ev w] => destruct (syscall ev w) as [b w1] eqn:S
  end.
  exists b, w1. split.
  - destruct b; reflexivity.
  - intros Hw.
    match type of S with
    | syscall ?ev w = _ => destruct (syscall_reliable ev w Hw) as (w2 & S2 & Hw2)
    end.
    rewrite S in S2. inversion S2; subst. exact Hw2.
Qed.

Lemma EmitBlocks_uncompressed new_block_start data old_block offset type s w :
  is_none (algorithm (compression_ s)) = true ->
  block_size (header_ s) <> 0 ->
  exists ops,
    length ops = Z.to_nat (Z.of_nat (length data) / block_size (header_ s))
    /\ EmitBlocks P new_block_start data old_block offset type s w
       = WriteOperation P ops data s w.
Proof.
  intros Hn Hbs. unfold EmitBlocks. run. rewrite Hn.
  apply Z.eqb_neq in Hbs. rewrite Hbs.
  eexists. split; [|reflexivity].
  rewrite length_map, indices_length. reflexivity.
Qed.

Lemma EmitBlocks_zero_block_size new_block_start data old_block offset type s w :
  block_size (header_ s) = 0 ->
  (is_none (algorithm (compression_ s)) = true \/ compressor_ s <> None) ->
  EmitBlocks P new_block_start data old_block offset type s w = None.
Proof.
  intros Hbs Hc. unfold EmitBlocks. run. rewrite Hbs. cbn.
  destruct (is_none (algorithm (compression_ s))); [reflexivity|].
  destruct (compressor_ s); [reflexivity|].
  destruct Hc as [Hc|Hc]; [discriminate | contradiction].
Qed.

(** A block request replayed on both sides. *)
Lemma EmitBlocks_mirrors M e r w_e w_r new_block_start data old_block offset
    type ok_e e' w_e' :
  mirrors P M e r ->
  reliable w_r ->
  0 <= op_count (header_ e) ->
  op_count (header_ e) + records_in e (CallEmitRawBlocks new_block_start data)
  <= M ->
  M < 2 ^ 64 ->
  EmitBlocks P new_block_start data old_block offset type e w_e
  = Some (ok_e, e', w_e') ->
  exists ok_r r' w_r',
    EmitBlocks P new_block_start data old_block offset type r w_r
    = Some (ok_r, r', w_r')
    /\ reliable w_r'
    /\ mirrors P M e' r'
    /\ op_count (header_ e')
       = op_count (header_ e)
         + records_in e (CallEmitRawBlocks new_block_start data)
    /\ same_setup e e'.
Proof.
  intros Hm Hw H0 H1 H2 Re.
  pose proof (mirrors_block_size M e r Hm) as Hbs.
  pose proof Hm as (Ee & Er & _ & _ & Hc & Hk & _).
  unfold records_in in *.
  destruct (is_none (algorithm (compression_ e))) eqn:Hn.
  - (* no compression *)
    destruct (Z.eq_dec (block_size (header_ e)) 0) as [Z0|NZ].
    { rewrite EmitBlocks_zero_block_size in Re; [discriminate | assumption | auto]. }
    destruct (EmitBlocks_uncompressed new_block_start data old_block offset
                type e w_e Hn NZ) as (ops_e & Le & Qe).
    destruct (EmitBlocks_uncompressed new_block_start data old_block offset
                type r w_r) as (ops_r & Lr & Qr);
      [rewrite <- Hc; assumption | rewrite <- Hbs; assumption |].
    rewrite Qe, WriteOperation_estimating in Re by assumption.
    injection Re as <- <- <-.
    destruct (WriteOperation_mirrors M e r w_r ops_e ops_r data Hm Hw)
      as (w' & R & Hw' & Hm' & Hoc'); try assumption.
    { rewrite Lr, Le, Hbs. reflexivity. }
    { rewrite Le. destruct (compressor_ e); assumption. }
    exists true. do 2 eexists. rewrite Qr. split; [exact R|].
    split; [exact Hw'|]. split; [exact Hm'|]. split.
    + rewrite Hoc', Le. destruct (compressor_ e); reflexivity.
    + apply estimated_same_setup.
  - destruct (compressor_ e) as [k|] eqn:Hke.
    + (* compression *)
      destruct (Z.eq_dec (block_size (header_ e)) 0) as [Z0|NZ].
      { rewrite EmitBlocks_zero_block_size in Re;
          [discriminate | assumption | right; congruence]. }
      rewrite (EmitBlocks_compressed_loop _ _ _ _ _ k) in Re by assumption.
      rewrite EmitBlocks_loop_estimating in Re by assumption.
      injection Re as <- <- <-.
      rewrite (EmitBlocks_compressed_loop _ _ _ _ _ k);
        [| rewrite <- Hc; assumption | rewrite <- Hk; reflexivity
         | rewrite <- Hbs; assumption].
      rewrite <- Hbs.
      destruct (EmitBlocks_loop_mirrors k new_block_start data old_block offset
                  type (op_count (header_ r)) (next_data_pos_ r) M
                  (Z.to_nat (Z.of_nat (length data) / block_size (header_ e)))
                  0 e r w_r Hm Hw H0 H1 H2)
        as (r' & w' & R & Hw' & Hm' & Hoc').
      exists true, r', w'. split; [exact R|]. split; [exact Hw'|].
      split; [exact Hm'|]. split; [exact Hoc'|].
      apply estimate_all_same_setup.
    + (* compression asked for, no compressor *)
      rewrite EmitBlocks_no_compressor in Re by assumption.
      injection Re as <- <- <-.
      exists false, r, w_r. rewrite EmitBlocks_no_compressor;
        [| rewrite <- Hc; assumption | rewrite <- Hk; reflexivity].
      split; [reflexivity|]. split; [exact Hw|]. split; [exact Hm|].
      split; [lia | apply same_setup_refl].
Qed.


Lemma records_in_nonneg s c : 0 <= records_in s c.
Proof.
  unfold records_in. destruct c;
    repeat match goal with
           | |- context [match ?x with _ => _ end] => destruct x
           end; lia.
Qed.

(** Any call replayed on both sides. *)
Lemma perform_mirrors c M e r w_e w_r ok_e e' w_e' :
  mirrors P M e r ->
  well_formed P e ->
  reliable w_r ->
  0 <= op_count (header_ e) ->
  op_count (header_ e) + records_in e c <= M ->
  M < 2 ^ 64 ->
  perform P c e w_e = Some (ok_e, e', w_e') ->
  exists ok_r r' w_r',
    perform P c r w_r = Some (ok_r, r', w_r')
    /\ reliable w_r'
    /\ mirrors P M e' r'
    /\ op_count (header_ e') = op_count (header_ e) + records_in e c
    /\ same_setup e e'.
Proof.
  intros Hm Hwf Hw H0 H1 H2 Re.
  pose proof Hm as (Ee & Er & Hh & HM & Hc & Hk & Hr & Hpos & Hre & Hrr).
  destruct c as [nb ob n | nb data | nb data ob off | nb n | lbl | data];
    cbn [perform] in *.
  - (* EmitCopy *)
    unfold EmitCopy in *.
    match goal with
    | |- context [WriteOperation P ?o []] => set (ops := o) in *
    end.
    unfold bind at 1 in Re.
    rewrite WriteOperation_estimating in Re by assumption.
    change (Some (true,
                  estimated P (Z.of_nat (length ops))
                    (Z.of_nat (@length byte [])) e, w_e)
            = Some (ok_e, e', w_e')) in Re.
    injection Re as <- <- <-.
    assert (Hlen : Z.of_nat (length ops) = Z.of_nat (Z.to_nat n)).
    { unfold ops. rewrite length_map, indices_length. reflexivity. }
    cbn [records_in] in H1. rewrite <- Hlen in H1.
    destruct (WriteOperation_mirrors M e r w_r ops ops [] Hm Hw eq_refl H0 H1 H2)
      as (w' & R & Hw' & Hm' & Hoc').
    unfold bind at 1. rewrite R.
    exists true. do 2 eexists. split; [reflexivity|]. split; [exact Hw'|].
    split; [exact Hm'|]. split.
    + etransitivity; [exact Hoc'|]. cbn [records_in]. lia.
    + apply estimated_same_setup.
  - (* EmitRawBlocks *)
    unfold EmitRawBlocks in *.
    eapply EmitBlocks_mirrors; eassumption.
  - (* EmitXorBlocks *)
    unfold EmitXorBlocks in *.
    eapply (EmitBlocks_mirrors M e r w_e w_r (u32 nb)); eassumption.
  - (* EmitZeroBlocks *)
    unfold EmitZeroBlocks in *.
    match goal with
    | |- context [WriteOperation P ?o []] => set (ops := o) in *
    end.
    unfold bind at 1 in Re.
    rewrite WriteOperation_estimating in Re by assumption.
    change (Some (true,
                  estimated P (Z.of_nat (length ops))
                    (Z.of_nat (@length byte [])) e, w_e)
            = Some (ok_e, e', w_e')) in Re.
    injection Re as <- <- <-.
    assert (Hlen : Z.of_nat (length ops) = Z.of_nat (Z.to_nat n)).
    { unfold ops. rewrite length_map, indices_length. reflexivity. }
    cbn [records_in] in H1. rewrite <- Hlen in H1.
    destruct (WriteOperation_mirrors M e r w_r ops ops [] Hm Hw eq_refl H0 H1 H2)
      as (w' & R & Hw' & Hm' & Hoc').
    unfold bind at 1. rewrite R.
    exists true. do 2 eexists. split; [reflexivity|]. split; [exact Hw'|].
    split; [exact Hm'|]. split.
    + etransitivity; [exact Hoc'|]. cbn [records_in]. lia.
    + apply estimated_same_setup.
  - (* EmitLabel *)
    destruct (EmitLabel_runs lbl e w_e Hwf) as (b & w1 & Q).
    rewrite Q in Re. injection Re as <- <- <-.
    destruct (EmitLabel_reliable lbl r w_r (mirrors_well_formed M e r Hm Hwf) Hw)
      as (w' & R & Hw').
    exists true, (labelled lbl r), w'. split; [exact R|]. split; [exact Hw'|].
    pose proof (f_equal op_count Hh) as Hoc. cbn in Hoc.
    pose proof (f_equal resume_point_max Hh) as Hmx. cbn in Hmx.
    split; [|split; [cbn; lia | repeat split]].
    unfold mirrors, labelled. cbn.
    repeat split; try assumption.
    + change (set_resume_point_count
                (u32 (resume_point_count (set_op_count_max 0 (header_ e)) + 1))
                (set_op_count_max 0 (header_ e))
              = set_resume_point_count
                  (u32 (resume_point_count (set_op_count_max 0 (header_ r)) + 1))
                  (set_op_count_max 0 (header_ r))).
      rewrite Hh. reflexivity.
    + rewrite Hr, Hoc, Hmx. reflexivity.
    + lia.
    + lia.
    + lia.
    + lia.
  - (* EmitSequenceData *)
    destruct (EmitSequenceData_runs data e w_e) as (b & w1 & Q & _).
    rewrite Q in Re. injection Re as <- <- <-.
    destruct (EmitSequenceData_runs data r w_r) as (b' & w' & R & Hw').
    do 3 eexists. split; [exact R|]. split; [exact (Hw' Hw)|].
    split; [|split; [cbn; lia | repeat split]].
    unfold mirrors. cbn -[Z.of_nat].
    repeat split; try assumption; try lia.
    change (set_sequence_data_count (u64 (Z.of_nat (length data)))
              (set_op_count_max 0 (header_ e))
            = set_sequence_data_count (u64 (Z.of_nat (length data)))
                (set_op_count_max 0 (header_ r))).
    rewrite Hh. reflexivity.
Qed.


Lemma total_records_cons s c cs :
  total_records s (c :: cs) = records_in s c + total_records s cs.
Proof. reflexivity. Qed.

Lemma total_records_nonneg s cs : 0 <= total_records s cs.
Proof.
  induction cs as [|c cs IH]; [cbn; lia|].
  rewrite total_records_cons. pose proof (records_in_nonneg s c). lia.
Qed.

Lemma same_setup_total_records a b cs :
  same_setup a b -> total_records b cs = total_records a cs.
Proof.
  intros H. unfold total_records. f_equal. apply map_ext.
  intros c. apply same_setup_records_in. exact H.
Qed.

(** A whole sequence of calls replayed on both sides: with a reliable file
    and room for all its records the real run goes through in step with the
    estimation. *)
Lemma replay_mirrors cs : forall M e r w_e w_r oks_e e' w_e',
  mirrors P M e r ->
  well_formed P e ->
  reliable w_r ->
  0 <= op_count (header_ e) ->
  op_count (header_ e) + total_records e cs <= M ->
  M < 2 ^ 64 ->
  replay P cs e w_e = Some (oks_e, e', w_e') ->
  exists oks_r r' w_r',
    replay P cs r w_r = Some (oks_r, r', w_r')
    /\ mirrors P M e' r'
    /\ op_count (header_ e') = op_count (header_ e) + total_records e cs.
Proof.
  induction cs as [|c cs IH]; intros M e r w_e w_r oks_e e' w_e' Hm Hwf Hw H0 H1 H2 Re.
  - cbn in Re. injection Re as <- <- <-.
    exists [], r, w_r. split; [reflexivity|]. split; [exact Hm|].
    cbn. lia.
  - rewrite total_records_cons in H1.
    pose proof (records_in_nonneg e c) as Hc.
    pose proof (total_records_nonneg e cs) as Hcs.
    cbn [replay] in Re. unfold bind at 1 in Re.
    destruct (perform P c e w_e) as [[[ok e1] w1]|] eqn:Q; [|discriminate].
    unfold bind at 1 in Re.
    destruct (replay P cs e1 w1) as [[[oks e2] w2]|] eqn:Q2; [|discriminate].
    injection Re as <- <- <-.
    destruct (perform_mirrors c M e r w_e w_r ok e1 w1 Hm Hwf Hw H0)
      as (ok_r & r1 & w_r1 & R1 & Hw1 & Hm1 & Hoc1 & Hss); [lia | lia | exact Q |].
    destruct (IH M e1 r1 w1 w_r1 oks e2 w2 Hm1) as (oks_r & r2 & w_r2 & R2 & Hm2 & Hoc2).
    + eapply same_setup_well_formed; eassumption.
    + exact Hw1.
    + lia.
    + rewrite (same_setup_total_records e e1 cs Hss). lia.
    + exact H2.
    + exact Q2.
    + exists (ok_r :: oks_r), r2, w_r2.
      split.
      { cbn [replay]. unfold bind at 1. rewrite R1.
        unfold bind at 1. rewrite R2. reflexivity. }
      split; [exact Hm2|].
      rewrite Hoc2, Hoc1, (same_setup_total_records e e1 cs Hss),
        total_records_cons. lia.
Qed.


(** ** Fresh sessions *)

Lemma ParseOptions_inv s w s' w' :
  ParseOptions P s w = Some (true, s', w') ->
  exists c,
    requested_compression P (options_ s) = Some c
    /\ s' = with_compression c
              (if is_none (algorithm c) then compressor_ s
               else ICompressor_Create P c (block_size (header_ s)))
              (Z.max (CowOptions.num_compress_threads (options_ s)) 1)
              (with_header
                 (set_op_count_max (u64 (CowOptions.op_count_max (options_ s)))
                    (set_compression_algorithm (algorithm c) (header_ s))) s).
Proof.
  unfold ParseOptions, requested_compression. run. cbn.
  destruct (2 <? _); [discriminate|].
  destruct (CompressionAlgorithmFromString P _) as [alg|]; [|discriminate].
  cbn.
  destruct (if 1 <? _ then _ else _) as [lv|]; [|discriminate].
  cbn.
  destruct (is_none alg) eqn:Hn; cbn.
  - intros H. injection H as <- <-. eexists. split; [reflexivity|].
    cbn. rewrite Hn. reflexivity.
  - destruct (ICompressor_Create P _ _) as [k|] eqn:Hk; cbn; [|discriminate].
    intros H. injection H as <- <-. eexists. split; [reflexivity|].
    cbn. rewrite Hn, Hk. reflexivity.
Qed.

Lemma OpenForWrite_inv s w s' w' :
  OpenForWrite P s w = Some (true, s', w') ->
  s' = with_next_data_pos (GetDataOffset P (header_ s)) (with_resume_points [] s).
Proof.
  unfold OpenForWrite, Sync. run.
  destruct (uint16_max <? _); [discriminate|].
  destruct (syscall (Seek 0) w) as [[|] w1]; cbn; [|discriminate].
  destruct (syscall (WriteHeader _ _ _) w1) as [[|] w2]; cbn; [|discriminate].
  destruct (CowOptions.scratch_space (options_ s)); cbn.
  - destruct (syscall (WriteZeros _) w2) as [[|] w3]; cbn; [|discriminate].
    destruct (syscall Fsync w3) as [[|] w4]; cbn; [|discriminate].
    intros H. injection H as <- <-. reflexivity.
  - destruct (syscall Fsync w2) as [[|] w4]; cbn; [|discriminate].
    intros H. injection H as <- <-. reflexivity.
Qed.

(** What a session opened for writing looks like. *)
Lemma Initialize_fresh o d w s w' :
  Initialize P None (CowWriterV3_new P o d) w = Some (true, s, w') ->
  exists c,
    requested_compression P o = Some c
    /\ header_ s
       = set_op_count_max (u64 (CowOptions.op_count_max o))
           (set_compression_algorithm (algorithm c)
              (header_ (CowWriterV3_new P o d)))
    /\ compression_ s = c
    /\ compressor_ s
       = (if is_none (algorithm c) then None
          else ICompressor_Create P c (u32 (CowOptions.block_size o)))
    /\ resume_points_ s = []
    /\ next_data_pos_ s = GetDataOffset P (header_ s)
    /\ is_dev_null_ s = d.
Proof.
  unfold Initialize, InitFd. unfold bind at 1, io at 1.
  destruct (syscall SetupFd w) as [[|] w1]; cbn [negb]; [|discriminate].
  unfold bind at 1.
  destruct (ParseOptions P (CowWriterV3_new P o d) w1) as [[[[|] s1] w2]|] eqn:Q;
    cbn [negb]; try discriminate.
  intros H. apply OpenForWrite_inv in H.
  apply ParseOptions_inv in Q. destruct Q as (c & Hc & ->).
  exists c. subst s. split; [exact Hc|]. repeat split.
Qed.

Lemma fresh_mirrors o M e r w_e0 w_e w_r0 w_r :
  Initialize P None (CowWriterV3_new P o true) w_e0 = Some (true, e, w_e) ->
  Initialize P None (CowWriterV3_new P (with_op_count_max M o) false) w_r0
  = Some (true, r, w_r) ->
  0 <= M < 2 ^ 64 ->
  mirrors P M e r
  /\ op_count (header_ e) = 0
  /\ (0 <= sizeof_CowHeaderV3 P < 2 ^ 16 -> well_formed P e).
Proof.
  intros He Hr HM.
  apply Initialize_fresh in He. apply Initialize_fresh in Hr.
  destruct He as (c & Hc & Hh & Hcomp & Hk & Hrp & Hpos & Hd).
  destruct Hr as (c' & Hc' & Hh' & Hcomp' & Hk' & Hrp' & Hpos' & Hd').
  assert (Hcc : c' = c).
  { unfold requested_compression in Hc, Hc'. cbn in Hc'. congruence. }
  rewrite Hcc in *. clear Hcc Hc'.
  split; [|split].
  - unfold mirrors, IsEstimating.
    rewrite Hpos, Hpos', Hh, Hh', Hcomp, Hcomp', Hk, Hk', Hrp, Hrp', Hd, Hd'.
    cbn -[u64 u32 u16 GetDataOffset].
    rewrite (u64_small M) by lia.
    repeat split; try apply u64_range.
    unfold GetDataOffset, GetOpOffset. cbn -[u64 u32 u16 GetSequenceOffset].
    set (base := GetSequenceOffset P _).
    change (GetSequenceOffset P _) with base.
    apply u64_eq_iff.
    destruct (u64_decompose
                (base + 0
                 + u64 (CowOptions.op_count_max o) * sizeof_CowOperationV3 P))
      as [k1 ->].
    destruct (u64_decompose (base + 0 + M * sizeof_CowOperationV3 P))
      as [k2 ->].
    exists (k1 - k2). lia.
  - rewrite Hh. reflexivity.
  - intros Hs. unfold well_formed. rewrite Hh. cbn -[u16 u32].
    split; [apply u16_small; exact Hs|].
    unfold u32, wrap. apply Z.mod_pos_bound. lia.
Qed.

(** C1, as the code has it.  Replay a sequence of calls on a fresh
    estimating session and on a fresh real session opened with the same
    options but for the capacity [M] of the operation table.  If the file of
    the real session never fails and [M] is at least the number of records
    the calls emit, the real run goes through and ends with the committed
    operation count of the estimation, which is that number; and if [M] is
    the capacity the estimation ended with, [GetCowSize] is the same in both
    sessions.  For any other capacity the two sizes differ by the size of
    the extra table entries. *)
Theorem estimation_matches_real_run o M cs w_e0 w_e e w_r0 w_r r oks_e e' w_e' :
  Initialize P None (CowWriterV3_new P o true) w_e0 = Some (true, e, w_e) ->
  Initialize P None (CowWriterV3_new P (with_op_count_max M o) false) w_r0
  = Some (true, r, w_r) ->
  0 <= sizeof_CowHeaderV3 P < 2 ^ 16 ->
  replay P cs e w_e = Some (oks_e, e', w_e') ->
  reliable w_r ->
  total_records e cs <= M < 2 ^ 64 ->
  exists oks_r r' w_r',
    replay P cs r w_r = Some (oks_r, r', w_r')
    /\ op_count (header_ e') = total_records e cs
    /\ op_count (header_ r') = op_count (header_ e')
    /\ (op_count_max (header_ e') = M -> GetCowSize r' = GetCowSize e')
    /\ u64 (GetCowSize r' - GetCowSize e')
       = u64 (sizeof_CowOperationV3 P * (M - op_count_max (header_ e'))).
Proof.
  intros He Hr Hs Re Hw HM.
  pose proof (total_records_nonneg e cs) as Hnn.
  destruct (fresh_mirrors o M e r w_e0 w_e w_r0 w_r He Hr ltac:(lia))
    as (Hm & H0 & Hwf).
  destruct (replay_mirrors cs M e r w_e w_r oks_e e' w_e' Hm (Hwf Hs) Hw)
    as (oks_r & r' & w_r' & R & Hm' & Hoc'); try lia; try assumption.
  exists oks_r, r', w_r'. split; [exact R|].
  split; [lia|].
  split; [symmetry; eapply mirrors_op_count; exact Hm'|].
  destruct Hm' as (_ & _ & _ & _ & _ & _ & _ & Hpos & Hre & Hrr).
  unfold GetCowSize. apply u64_eq_iff in Hpos. destruct Hpos as [k Hk].
  split.
  - intros Hcap. rewrite Hcap in Hk. lia.
  - apply u64_eq_iff. exists (- k). lia.
Qed.



End Claims.

(** * The theorems at concrete inputs *)

Lemma WriteOperation_estimating_never_fails_witness :
  exists s',
    WriteOperation PX [zero_op 0; zero_op 1] [x01] estimating_session quiet
    = Some (true, s', quiet)
    /\ op_count (header_ s') = 2
    /\ op_count_max (header_ s') = 2
    /\ next_data_pos_ s' = next_data_pos_ estimating_session + 2 * 14 + 1.
Proof.
  destruct (WriteOperation_estimating_never_fails PX [zero_op 0; zero_op 1]
              [x01] estimating_session quiet eq_refl)
    as (s' & R & Hoc & Hmax & Hpos & _).
  exists s'. split; [exact R|].
  split; [rewrite Hoc; reflexivity|].
  split; [rewrite Hmax, Hoc; reflexivity|].
  rewrite Hpos, Hmax, Hoc. reflexivity.
Defined.

Lemma WriteOperation_over_capacity_fails_witness :
  WriteOperation PX [zero_op 0; zero_op 1; zero_op 2] [] (real_session "none" 2)
    quiet
  = Some (false, real_session "none" 2, quiet).
Proof.
  refine (proj1 (WriteOperation_over_capacity_fails PX
                   [zero_op 0; zero_op 1; zero_op 2] [] (real_session "none" 2)
                   quiet _ _ _ _)).
  - reflexivity.
  - vm_compute. discriminate.
  - vm_compute. reflexivity.
  - vm_compute. reflexivity.
Defined.

(** C8 on the code: a sequence-data write that fails leaves the new entry
    count in the header. *)
Theorem EmitSequenceData_failed_write_keeps_new_count :
  exists s',
    EmitSequenceData PX [1; 2; 3] (real_session "none" 5) (failing [false])
    = Some (false, s', quiet)
    /\ sequence_data_count (header_ (real_session "none" 5)) = 0
    /\ sequence_data_count (header_ s') = 3.
Proof.
  eexists. split; [vm_compute; reflexivity|]. split; reflexivity.
Qed.


Lemma OpenForAppend_reconstructs_cursor_witness :
  exists s',
    OpenForAppend PR 1 (CowWriterV3_new PR (example_options "none" 0) false) quiet
    = Some (true, s', quiet)
    /\ next_data_pos_ s' = 208 + (4 + 4)
    /\ op_count (header_ s') = 2
    /\ resume_points_ s' = recovered_points.
Proof.
  destruct (OpenForAppend_reconstructs_cursor PR 1
              (header_ (opened PX (example_options "none" 5) false))
              recovered_points recovered_ops
              (CowWriterV3_new PR (example_options "none" 0) false) quiet)
    as (s' & R & Hpos & Hoc & Hrp & _).
  - vm_compute. discriminate.
  - reflexivity.
  - reflexivity.
  - exists s'. split; [exact R|]. split; [rewrite Hpos; reflexivity|].
    split; [rewrite Hoc; reflexivity | exact Hrp].
Defined.

Lemma EmitLabel_twice_replaces_witness :
  exists b1 s1 w1 b2 s2 w2,
    EmitLabel PX 7 (real_session "none" 5) quiet = Some (b1, s1, w1)
    /\ EmitLabel PX 7 s1 w1 = Some (b2, s2, w2)
    /\ resume_points_ s1 = [{| label := 7; op_index := 0 |}]
    /\ resume_points_ s2 = resume_points_ s1.
Proof.
  destruct (EmitLabel_twice_replaces PX 7 (real_session "none" 5) quiet)
    as (b1 & s1 & w1 & b2 & s2 & w2 & R1 & R2 & H1 & H2 & _).
  - split; [reflexivity | vm_compute; discriminate].
  - exists b1, s1, w1, b2, s2, w2. split; [exact R1|]. split; [exact R2|].
    split; [rewrite H1; reflexivity | exact H2].
Defined.

Lemma EmitLabel_bounded_oldest_first_witness :
  exists oks s' w',
    replay PX (map CallEmitLabel [1; 2; 3; 4; 5; 6]) (real_session "none" 5) quiet
    = Some (oks, s', w')
    /\ Z.of_nat (length (resume_points_ s')) <= 4
    /\ map label (resume_points_ s') = [3; 4; 5; 6].
Proof.
  destruct (EmitLabel_bounded_oldest_first PX [1; 2; 3; 4; 5; 6] 6
              (real_session "none" 5) quiet)
    as (oks & s' & w' & R & Hb & Hn).
  - split; [reflexivity | vm_compute; discriminate].
  - vm_compute. discriminate.
  - exists oks, s', w'. split; [exact R|]. split; [exact Hb|].
    destruct Hn as [Hn _].
    + repeat constructor.
    + constructor.
    + rewrite Hn. reflexivity.
Defined.


Lemma EmitBlocks_compresses_per_block_witness :
  exists added,
    disk (snd compressed_end) = added
    /\ map data_length (records_of added) = [1; 4]
    /\ concat (payloads_of added) = [x01; x01; x02; x03; x04].
Proof.
  destruct (EmitBlocks_compresses_per_block PX 0 nine_bytes 0 0 kCowReplaceOp
              toy_compress (real_session "lz4" 5) quiet
              (snd (fst compressed_end)) (snd compressed_end))
    as (added & D & Hr & Hp & _).
  - reflexivity.
  - reflexivity.
  - reflexivity.
  - split; [reflexivity | vm_compute; discriminate].
  - reflexivity.
  - vm_compute. reflexivity.
  - exists added. split; [exact D|]. split; [rewrite Hr | rewrite Hp]; reflexivity.
Defined.

Lemma estimation_matches_real_run_witness :
  exists oks_r r' w_r',
    replay PX example_calls (snd (fst real_start)) (snd real_start)
    = Some (oks_r, r', w_r')
    /\ op_count (header_ r') = 3
    /\ GetCowSize r' = GetCowSize (snd (fst estimate_end)).
Proof.
  destruct (estimation_matches_real_run PX (example_options "lz4" 0) 3
              example_calls quiet (snd estimate_start) (snd (fst estimate_start))
              quiet (snd real_start) (snd (fst real_start))
              (fst (fst estimate_end)) (snd (fst estimate_end))
              (snd estimate_end))
    as (oks_r & r' & w_r' & R & Hn & Hoc & Hsize & _).
  - vm_compute. reflexivity.
  - vm_compute. reflexivity.
  - split; [vm_compute; discriminate | vm_compute; reflexivity].
  - vm_compute. reflexivity.
  - repeat constructor.
  - split; [vm_compute; discriminate | vm_compute; reflexivity].
  - exists oks_r, r', w_r'. split; [exact R|].
    split; [rewrite Hoc, Hn; reflexivity|].
    apply Hsize. reflexivity.
Defined.

(** C1 as stated fails: a real session whose capacity (2) exceeds the
    estimated operation count (1) commits the same count but reports a
    larger size than the estimation did. *)
Lemma estimation_differs_for_larger_capacity :
  exists e w_e r w_r oks_e e' w_e' oks_r r' w_r',
    Initialize PX None (CowWriterV3_new PX (example_options "none" 0) true) quiet
    = Some (true, e, w_e)
    /\ Initialize PX None (CowWriterV3_new PX (example_options "none" 2) false)
         quiet
       = Some (true, r, w_r)
    /\ replay PX [CallEmitZeroBlocks 0 1] e w_e = Some (oks_e, e', w_e')
    /\ replay PX [CallEmitZeroBlocks 0 1] r w_r = Some (oks_r, r', w_r')
    /\ op_count (header_ e') <= op_count_max (header_ r)
    /\ op_count (header_ r') = op_count (header_ e')
    /\ GetCowSize e' = 152
    /\ GetCowSize r' = 166
    /\ GetCowSize r' <> GetCowSize e'.
Proof.
  do 10 eexists.
  split; [vm_compute; reflexivity|].
  split; [vm_compute; reflexivity|].
  split; [vm_compute; reflexivity|].
  split; [vm_compute; reflexivity|].
  split; [vm_compute; discriminate|].
  split; [reflexivity|].
  split; [reflexivity|].
  split; [reflexivity|].
  vm_compute. discriminate.
Qed.


(** * Further properties of the writer *)

Section Extras.

Variable P : Platform.

(** ** What a call can change *)

Lemma recount_same s :
  recount (op_count (header_ s)) (op_count_max (header_ s)) (next_data_pos_ s) s
  = s.
Proof. destruct s as [o h c k t p r d]. destruct h. reflexivity. Qed.

Lemma at_counts_recount c p s :
  at_counts c p s = recount c (op_count_max (header_ s)) p s.
Proof. destruct s as [o h c' k t p' r d]. destruct h. reflexivity. Qed.

Lemma moved_under_refl (A : Prop) s :
  (A -> within_capacity s) -> moved_under A s s.
Proof.
  intros H. exists (op_count (header_ s)), (op_count_max (header_ s)),
    (next_data_pos_ s).
  rewrite recount_same. repeat split; auto. lia.
Qed.

Lemma moved_under_trans (A : Prop) s s1 s2 :
  moved_under A s s1 -> moved_under A s1 s2 -> moved_under A s s2.
Proof.
  intros (c & m & p & -> & Hc & Hm & Hr) (c2 & m2 & p2 & -> & Hc2 & Hm2 & Hr2).
  exists c2, m2, p2. cbn in *. repeat split; auto.
  - lia.
  - intros E. rewrite Hr2, Hr by assumption. reflexivity.
Qed.

Lemma moved_under_weaken (A B : Prop) s s' :
  (B -> A) -> moved_under A s s' -> moved_under B s s'.
Proof.
  intros H (c & m & p & -> & Hc & Hm & Hr). exists c, m, p. repeat split; auto.
Qed.

Lemma moved_within (A : Prop) s s' :
  moved_under A s s' -> A -> within_capacity s'.
Proof.
  intros (c & m & p & -> & Hc & _) HA. unfold within_capacity. cbn. auto.
Qed.

Lemma WriteOperation_moved ops data s w b s' w' :
  WriteOperation P ops data s w = Some (b, s', w') ->
  moved s s' /\ (b = false -> s' = s).
Proof.
  intros R. destruct (IsEstimating s) eqn:E.
  - rewrite WriteOperation_estimating in R by assumption.
    injection R as <- <- <-. split; [|discriminate].
    unfold moved, moved_under, estimated.
    set (oc := u64 (op_count (header_ s) + Z.of_nat (length ops))).
    destruct (op_count_max (header_ s) <? oc) eqn:G.
    + apply Z.ltb_lt in G. do 3 eexists. split; [reflexivity|].
      repeat split; try lia. rewrite E. discriminate.
    + apply Z.ltb_ge in G. exists oc, (op_count_max (header_ s)).
      eexists. split.
      * destruct s as [o h c k t p r d]. destruct h. reflexivity.
      * repeat split; try lia.
  - destruct (WriteOperation_real P ops data s w E) as (w1 & [Q | (G & _ & Q)]);
      rewrite Q in R; injection R as <- <- <-.
    + split; [|reflexivity]. apply moved_under_refl. auto.
    + split; [|discriminate]. apply Z.ltb_ge in G.
      unfold moved, moved_under, committed.
      exists (u64 (op_count (header_ s) + Z.of_nat (length ops))),
        (op_count_max (header_ s)). eexists. split.
      * destruct s as [o h c k t p r d]. destruct h. reflexivity.
      * repeat split; try lia.
Qed.

Lemma EmitBlocks_loop_moved (A : Prop) k new_block_start data old_block offset
    type c0 p0 :
  forall n i s w b s' w',
  (A -> within_capacity s) ->
  (A -> c0 <= op_count_max (header_ s)) ->
  EmitBlocks_loop P k n i new_block_start data old_block offset type c0 p0 s w
  = Some (b, s', w') ->
  moved_under A s s'.
Proof.
  induction n as [|n IH]; intros i s w b s' w' HA Hc0 R.
  - cbn in R. injection R as <- <- <-. apply moved_under_refl. exact HA.
  - rewrite EmitBlocks_loop_S in R.
    destruct (WriteOperation P _ _ s w) as [[[b1 s1] w1]|] eqn:Q; [|discriminate].
    destruct (WriteOperation_moved _ _ _ _ _ _ _ Q) as [Hm Hf].
    assert (Hm1 : moved_under A s s1).
    { eapply moved_under_weaken; [|exact Hm]. exact HA. }
    destruct b1.
    + eapply moved_under_trans; [exact Hm1|].
      eapply IH; [| |exact R].
      * intros a. eapply moved_within; eassumption.
      * intros a. destruct Hm1 as (c & m & p & -> & _ & Hmm & _). cbn.
        specialize (Hc0 a). lia.
    + injection R as <- <- <-. rewrite (Hf eq_refl).
      rewrite at_counts_recount. do 3 eexists. split; [reflexivity|].
      repeat split; auto. lia.
Qed.

Lemma EmitBlocks_moved new_block_start data old_block offset type s w b s' w' :
  EmitBlocks P new_block_start data old_block offset type s w
  = Some (b, s', w') ->
  moved s s'.
Proof.
  intros R.
  destruct (is_none (algorithm (compression_ s))) eqn:Hn.
  - destruct (Z.eq_dec (block_size (header_ s)) 0) as [Z0|NZ].
    { rewrite EmitBlocks_zero_block_size in R; [discriminate | assumption | auto]. }
    destruct (EmitBlocks_uncompressed P new_block_start data old_block offset
                type s w Hn NZ) as (ops & _ & Q).
    rewrite Q in R. apply WriteOperation_moved in R. apply R.
  - destruct (compressor_ s) as [k|] eqn:Hk.
    + destruct (Z.eq_dec (block_size (header_ s)) 0) as [Z0|NZ].
      { rewrite EmitBlocks_zero_block_size in R;
          [discriminate | assumption | right; congruence]. }
      rewrite (EmitBlocks_compressed_loop P _ _ _ _ _ k) in R by assumption.
      eapply EmitBlocks_loop_moved; [| |exact R]; auto.
    + rewrite EmitBlocks_no_compressor in R by assumption.
      injection R as <- <- <-. apply moved_under_refl. auto.
Qed.

Lemma Finalize_inv s w b s' w' :
  Finalize P s w = Some (b, s', w') ->
  s' = s /\ header_size (prefix (header_ s)) = sizeof_CowHeaderV3 P.
Proof.
  unfold Finalize, Sync. run.
  destruct (sizeof_CowHeaderV3 P <=? header_size (prefix (header_ s))) eqn:G1;
    cbn; [|discriminate].
  destruct (header_size (prefix (header_ s)) <=? sizeof_CowHeaderV3 P) eqn:G2;
    cbn; [|discriminate].
  apply Z.leb_le in G1, G2.
  destruct (syscall (WriteHeader _ _ _) w) as [[|] w1]; cbn.
  - destruct (syscall Fsync w1) as [b2 w2]. intros H. injection H as <- <- <-.
    split; [reflexivity | lia].
  - intros H. injection H as <- <- <-. split; [reflexivity | lia].
Qed.

Lemma EmitLabel_inv lbl s w b s' w' :
  EmitLabel P lbl s w = Some (b, s', w') ->
  s' = labelled lbl s
  /\ Z.of_nat (length (resume_points_ s')) <= resume_point_max (header_ s).
Proof.
  unfold EmitLabel. run. cbn -[Finalize].
  destruct (Z.of_nat (length _) <=? resume_point_max (header_ s)) eqn:G;
    cbn -[Finalize]; [|discriminate].
  apply Z.leb_le in G.
  destruct (syscall (WriteResume _ _) w) as [[|] w1]; cbn -[Finalize].
  - intros H. apply Finalize_inv in H. destruct H as [-> _].
    split; [reflexivity | exact G].
  - intros H. injection H as <- <- <-. split; [reflexivity | exact G].
Qed.

(** Every call leaves the session as its [base_effect] with the three
    counters moved. *)
Lemma perform_effect c s w b s' w' :
  perform P c s w = Some (b, s', w') ->
  moved_under (within_capacity s) (base_effect c s) s'.
Proof.
  destruct c as [nb ob n | nb data | nb data ob off | nb n | lbl | data];
    cbn [perform base_effect]; intros R.
  - unfold EmitCopy in R. unfold bind at 1 in R.
    destruct (WriteOperation P _ _ s w) as [[[b1 s1] w1]|] eqn:Q; [|discriminate].
    apply WriteOperation_moved in Q.
    destruct b1; cbn in R; injection R as <- <- <-; apply Q.
  - unfold EmitRawBlocks in R. apply EmitBlocks_moved in R. exact R.
  - unfold EmitXorBlocks in R. apply EmitBlocks_moved in R. exact R.
  - unfold EmitZeroBlocks in R. unfold bind at 1 in R.
    destruct (WriteOperation P _ _ s w) as [[[b1 s1] w1]|] eqn:Q; [|discriminate].
    apply WriteOperation_moved in Q.
    destruct b1; cbn in R; injection R as <- <- <-; apply Q.
  - apply EmitLabel_inv in R. destruct R as [-> _].
    apply moved_under_refl. auto.
  - destruct (EmitSequenceData_runs P data s w) as (b0 & w0 & Q & _).
    rewrite Q in R. injection R as <- <- <-. apply moved_under_refl. auto.
Qed.


(** ** Invariants of a replayed sequence *)

Lemma perform_counters c s w b s' w' :
  perform P c s w = Some (b, s', w') ->
  IsEstimating s' = IsEstimating s
  /\ op_count_max (header_ s) <= op_count_max (header_ s')
  /\ (IsEstimating s = false ->
      op_count_max (header_ s') = op_count_max (header_ s))
  /\ (within_capacity s -> within_capacity s').
Proof.
  intros R. apply perform_effect in R.
  destruct R as (c' & m & p & -> & Hc & Hm & Hr).
  assert (E : IsEstimating (base_effect c s) = IsEstimating s)
    by (destruct c; reflexivity).
  assert (Hmax : op_count_max (header_ (base_effect c s))
                 = op_count_max (header_ s))
    by (destruct c; reflexivity).
  rewrite E in Hr. rewrite Hmax in Hm, Hr.
  unfold within_capacity. cbn. repeat split; auto.
Qed.

Lemma perform_setup c s w b s' w' :
  perform P c s w = Some (b, s', w') ->
  options_ s' = options_ s
  /\ compression_ s' = compression_ s
  /\ compressor_ s' = compressor_ s
  /\ num_compress_threads_ s' = num_compress_threads_ s
  /\ prefix (header_ s') = prefix (header_ s)
  /\ block_size (header_ s') = block_size (header_ s)
  /\ buffer_size (header_ s') = buffer_size (header_ s)
  /\ resume_point_max (header_ s') = resume_point_max (header_ s)
  /\ compression_algorithm (header_ s') = compression_algorithm (header_ s).
Proof.
  intros R. apply perform_effect in R.
  destruct R as (c' & m & p & -> & _). destruct c; repeat split.
Qed.

Lemma perform_vector c s w b s' w' :
  perform P c s w = Some (b, s', w') ->
  match c with
  | CallEmitLabel l =>
      resume_points_ s' = resume_points_ (labelled l s)
      /\ Z.of_nat (length (resume_points_ s')) <= resume_point_max (header_ s)
  | _ => resume_points_ s' = resume_points_ s
  end.
Proof.
  intros R. pose proof (perform_effect _ _ _ _ _ _ R) as (c' & m & p & E & _).
  destruct c; try (subst s'; reflexivity).
  cbn [perform] in R. apply EmitLabel_inv in R. destruct R as [-> G].
  split; [reflexivity | exact G].
Qed.

Lemma increasing_filter p l :
  increasing_labels l -> increasing_labels (filter p l).
Proof.
  unfold increasing_labels. induction 1 as [|a l Hs IH Ha]; cbn.
  - constructor.
  - destruct (p a); [|exact IH]. constructor; [exact IH|].
    apply Forall_forall. intros x Hx. apply filter_In in Hx.
    rewrite Forall_forall in Ha. apply Ha. tauto.
Qed.

Lemma increasing_snoc l x :
  increasing_labels l -> Forall (fun a => label a < label x) l ->
  increasing_labels (l ++ [x]).
Proof.
  unfold increasing_labels. induction 1 as [|a l Hs IH Ha]; cbn; intros Hx.
  - repeat constructor.
  - inversion Hx; subst. constructor; [auto|].
    apply Forall_app. split; [exact Ha | repeat constructor; assumption].
Qed.

Lemma increasing_skipn k l :
  increasing_labels l -> increasing_labels (skipn k l).
Proof.
  unfold increasing_labels. intros H. revert k.
  induction H as [|a l Hs IH Ha]; intros [|k]; cbn;
    try constructor; auto.
Qed.

Lemma labelled_increasing lbl s :
  increasing_labels (resume_points_ s) ->
  increasing_labels (resume_points_ (labelled lbl s)).
Proof.
  intros H. unfold labelled. cbn.
  rewrite evict_oldest_newest, erase_remove_if_below. unfold newest.
  apply increasing_skipn. apply increasing_snoc.
  - apply increasing_filter. exact H.
  - apply Forall_forall. intros x Hx. apply filter_In in Hx. cbn.
    apply Z.ltb_lt. tauto.
Qed.


Lemma replay_cons_inv c cs s w oks s' w' :
  replay P (c :: cs) s w = Some (oks, s', w') ->
  exists ok s1 w1 oks',
    perform P c s w = Some (ok, s1, w1)
    /\ replay P cs s1 w1 = Some (oks', s', w')
    /\ oks = ok :: oks'.
Proof.
  cbn [replay]. unfold bind at 1.
  destruct (perform P c s w) as [[[ok s1] w1]|] eqn:Q; [|discriminate].
  unfold bind at 1.
  destruct (replay P cs s1 w1) as [[[oks' s2] w2]|] eqn:R; [|discriminate].
  intros H. injection H as <- <- <-. exists ok, s1, w1, oks'.
  repeat split; assumption.
Qed.

(** X15. Whatever calls are replayed and whatever they return, in either mode:
    a committed operation count within the table capacity stays within it,
    the capacity never shrinks, and in real mode it never changes. *)
Theorem replay_keeps_within_capacity cs : forall s w oks s' w',
  within_capacity s ->
  replay P cs s w = Some (oks, s', w') ->
  op_count (header_ s') <= op_count_max (header_ s')
  /\ op_count_max (header_ s) <= op_count_max (header_ s')
  /\ (IsEstimating s = false ->
      op_count_max (header_ s') = op_count_max (header_ s)).
Proof.
  induction cs as [|c cs IH]; intros s w oks s' w' Hin R.
  - cbn in R. injection R as <- <- <-. repeat split; auto. lia.
  - apply replay_cons_inv in R.
    destruct R as (ok & s1 & w1 & oks' & Q & R & _).
    apply perform_counters in Q. destruct Q as (E & Hm & Hr & Hw).
    destruct (IH s1 w1 oks' s' w' (Hw Hin) R) as (H1 & H2 & H3).
    split; [exact H1|]. split; [lia|].
    intros Er. rewrite H3, Hr; [reflexivity | assumption | congruence].
Qed.

(** X16. No call changes how the session was set up: options, compression
    configuration and compressor, header prefix (magic, version, header
    size), block size, scratch-buffer size, resume-point capacity, the
    header's compression tag and the estimating flag stay what they were. *)
Theorem replay_keeps_setup cs : forall s w oks s' w',
  replay P cs s w = Some (oks, s', w') ->
  options_ s' = options_ s
  /\ compression_ s' = compression_ s
  /\ compressor_ s' = compressor_ s
  /\ prefix (header_ s') = prefix (header_ s)
  /\ block_size (header_ s') = block_size (header_ s)
  /\ buffer_size (header_ s') = buffer_size (header_ s)
  /\ resume_point_max (header_ s') = resume_point_max (header_ s)
  /\ compression_algorithm (header_ s') = compression_algorithm (header_ s)
  /\ IsEstimating s' = IsEstimating s.
Proof.
  induction cs as [|c cs IH]; intros s w oks s' w' R.
  - cbn in R. injection R as <- <- <-. repeat split.
  - apply replay_cons_inv in R.
    destruct R as (ok & s1 & w1 & oks' & Q & R & _).
    pose proof (perform_counters _ _ _ _ _ _ Q) as (E & _).
    apply perform_setup in Q.
    destruct Q as (Q1 & Q2 & Q3 & _ & Q5 & Q6 & Q7 & Q8 & Q9).
    destruct (IH s1 w1 oks' s' w' R)
      as (H1 & H2 & H3 & H5 & H6 & H7 & H8 & H9 & H10).
    repeat split; congruence.
Qed.

(** X17. Resume points stay in strictly increasing label order, whatever labels
    are emitted in whatever order and whatever else is replayed between
    them; and once a label was emitted the vector is within the capacity. *)
Theorem replay_keeps_labels_increasing cs : forall s w oks s' w',
  increasing_labels (resume_points_ s) ->
  replay P cs s w = Some (oks, s', w') ->
  increasing_labels (resume_points_ s')
  /\ (Z.of_nat (length (resume_points_ s)) <= resume_point_max (header_ s) ->
      Z.of_nat (length (resume_points_ s')) <= resume_point_max (header_ s')).
Proof.
  induction cs as [|c cs IH]; intros s w oks s' w' Hs R.
  - cbn in R. injection R as <- <- <-. auto.
  - apply replay_cons_inv in R.
    destruct R as (ok & s1 & w1 & oks' & Q & R & _).
    pose proof (perform_setup _ _ _ _ _ _ Q) as (_ & _ & _ & _ & _ & _ & _ & Hm & _).
    apply perform_vector in Q.
    assert (Hs1 : increasing_labels (resume_points_ s1)).
    { destruct c; try (rewrite Q; exact Hs).
      destruct Q as [-> _]. apply labelled_increasing. exact Hs. }
    destruct (IH s1 w1 oks' s' w' Hs1 R) as (H1 & H2).
    split; [exact H1|]. intros Hlen. apply H2. rewrite Hm.
    destruct c; try (rewrite Q; exact Hlen). apply Q.
Qed.


(** ** Checkpoints and the header *)

Lemma Finalize_log s w b s' w' :
  Finalize P s w = Some (b, s', w') ->
  s' = s
  /\ exists written,
       disk w' = disk w ++ written
       /\ (b = true ->
           written = [WriteHeader 0 (header_ s)
                        (header_size (prefix (header_ s))); Fsync])
       /\ (b = false -> ~ In Fsync written).
Proof.
  unfold Finalize, Sync. run.
  destruct (sizeof_CowHeaderV3 P <=? header_size (prefix (header_ s)));
    cbn; [|discriminate].
  destruct (header_size (prefix (header_ s)) <=? sizeof_CowHeaderV3 P);
    cbn; [|discriminate].
  destruct (syscall (WriteHeader _ _ _) w) as [[|] w1] eqn:S1; cbn.
  - apply syscall_true in S1.
    destruct (syscall Fsync w1) as [[|] w2] eqn:S2;
      intros H; injection H as <- <- <-; (split; [reflexivity|]).
    + apply syscall_true in S2. eexists. split.
      { rewrite S2, S1, <- app_assoc. reflexivity. }
      split; [reflexivity | discriminate].
    + apply syscall_false in S2. eexists. split.
      { rewrite S2, S1. reflexivity. }
      split; [discriminate|]. intros _ [H|[]]. discriminate.
  - apply syscall_false in S1. intros H; injection H as <- <- <-.
    split; [reflexivity|]. exists []. rewrite app_nil_r.
    split; [exact S1|]. split; [discriminate | intros _ []].
Qed.

(** X14. [Finalize] aborts exactly when the declared header size is not the size
    of the header structure; otherwise it returns without touching the
    session, and when it returns success the header went to offset 0 with
    its declared size and was then synced. *)
Theorem Finalize_checks_then_writes s w :
  (Finalize P s w = None
   <-> header_size (prefix (header_ s)) <> sizeof_CowHeaderV3 P)
  /\ forall b s' w',
       Finalize P s w = Some (b, s', w') ->
       s' = s
       /\ exists written,
            disk w' = disk w ++ written
            /\ (b = true ->
                written = [WriteHeader 0 (header_ s)
                             (header_size (prefix (header_ s))); Fsync])
            /\ (b = false -> ~ In Fsync written).
Proof.
  split; [|apply Finalize_log].
  split.
  - intros H Hs. unfold Finalize, Sync in H. run. rewrite Hs, Z.leb_refl in H.
    cbn in H. destruct (syscall (WriteHeader _ _ _) w) as [[|] w1]; cbn in H;
      [destruct (syscall Fsync w1)|]; discriminate.
  - intros Hs. destruct (Finalize P s w) as [[[b s'] w']|] eqn:Q; [|reflexivity].
    apply Finalize_inv in Q. tauto.
Qed.

(** What [EmitLabel] leaves in the session and in the file. *)
Lemma EmitLabel_log lbl s w b s' w' :
  EmitLabel P lbl s w = Some (b, s', w') ->
  s' = labelled lbl s
  /\ exists written,
       disk w' = disk w ++ written
       /\ (b = true ->
           written = [WriteResume (GetResumeOffset (header_ s'))
                        (resume_points_ s');
                      WriteHeader 0 (header_ s')
                        (header_size (prefix (header_ s'))); Fsync])
       /\ (b = false -> ~ In Fsync written).
Proof.
  unfold EmitLabel. run. cbn -[Finalize].
  destruct (Z.of_nat (length _) <=? resume_point_max (header_ s));
    cbn -[Finalize]; [|discriminate].
  destruct (syscall (WriteResume _ _) w) as [[|] w1] eqn:S1; cbn -[Finalize].
  - apply syscall_true in S1. intros H. apply Finalize_log in H.
    destruct H as (-> & written & D & Ht & Hf). split; [reflexivity|].
    exists (WriteResume
              (GetResumeOffset
                 (set_resume_point_count
                    (u32 (resume_point_count (header_ s) + 1)) (header_ s)))
              (resume_points_ (labelled lbl s)) :: written).
    split.
    { rewrite D, S1, <- app_assoc. reflexivity. }
    split.
    + intros Hb. rewrite (Ht Hb). reflexivity.
    + intros Hb [H|H]; [discriminate | exact (Hf Hb H)].
  - apply syscall_false in S1. intros H. injection H as <- <- <-.
    split; [reflexivity|]. exists []. rewrite app_nil_r.
    split; [exact S1|]. split; [discriminate | intros _ []].
Qed.

(** X12. A successful [EmitLabel] has written the resume-point table, then the
    header that carries the new counts, then synced, in this order and
    nothing else; a failed one never got a sync through. *)
Theorem EmitLabel_persists_in_order lbl s w b s' w' :
  EmitLabel P lbl s w = Some (b, s', w') ->
  exists written,
    disk w' = disk w ++ written
    /\ (b = true ->
        written = [WriteResume (GetResumeOffset (header_ s'))
                     (resume_points_ s');
                   WriteHeader 0 (header_ s')
                     (header_size (prefix (header_ s'))); Fsync])
    /\ (b = false -> ~ In Fsync written).
Proof.
  intros R. apply EmitLabel_log in R. apply R.
Qed.

(** X13. Whatever [EmitLabel L] returns, failure included, it leaves the pair of
    [L] and the committed operation count as the newest resume point, after
    entries of the old vector that all have smaller labels, and the header's
    resume-point count one higher (when the capacity holds an entry at
    all). *)
Theorem EmitLabel_newest_entry lbl s w b s' w' :
  1 <= resume_point_max (header_ s) ->
  EmitLabel P lbl s w = Some (b, s', w') ->
  exists older,
    resume_points_ s'
    = older ++ [{| label := lbl; op_index := op_count (header_ s) |}]
    /\ Forall (fun rp => label rp < lbl /\ In rp (resume_points_ s)) older
    /\ resume_point_count (header_ s')
       = u32 (resume_point_count (header_ s) + 1)
    /\ op_count (header_ s') = op_count (header_ s)
    /\ next_data_pos_ s' = next_data_pos_ s.
Proof.
  intros Hm R. apply EmitLabel_inv in R. destruct R as [-> _].
  unfold labelled. cbn.
  rewrite evict_oldest_newest, erase_remove_if_below.
  rewrite newest_snoc by assumption.
  eexists. split; [reflexivity|]. split; [|repeat split].
  apply Forall_forall. intros rp Hin. apply newest_incl in Hin.
  apply filter_In in Hin. destruct Hin as [Hin Hlt].
  apply Z.ltb_lt in Hlt. auto.
Qed.

(** ** The write protocol and the emitters *)

Lemma WriteOperation_real_log ops data s w b s' w' :
  IsEstimating s = false ->
  WriteOperation P ops data s w = Some (b, s', w') ->
  let table := WriteOps (GetOpOffset P (op_count (header_ s)) (header_ s)) ops in
  (b = false ->
   s' = s
   /\ (disk w' = disk w \/ (data <> [] /\ disk w' = disk w ++ [table])))
  /\ (b = true ->
      s' = committed (Z.of_nat (length ops)) (Z.of_nat (length data)) s
      /\ u64 (op_count (header_ s) + Z.of_nat (length ops))
         <= op_count_max (header_ s)
      /\ disk w'
         = disk w
           ++ table :: match data with
                       | [] => []
                       | _ :: _ => [WriteData (next_data_pos_ s) data]
                       end).
Proof.
  intros E. unfold WriteOperation. run. rewrite E.
  destruct (op_count_max (header_ s) <? _) eqn:G.
  - intros H. injection H as <- <- <-. split; [|discriminate].
    intros _. auto.
  - apply Z.ltb_ge in G.
    destruct (syscall (WriteOps _ ops) w) as [[|] w1] eqn:S1; cbn.
    + apply syscall_true in S1.
      destruct data as [|b0 d0]; cbn -[Z.of_nat].
      * intros H. injection H as <- <- <-. split; [discriminate|].
        intros _. repeat split; assumption.
      * destruct (syscall (WriteData _ _) w1) as [[|] w2] eqn:S2;
          cbn -[Z.of_nat]; intros H; injection H as <- <- <-.
        -- apply syscall_true in S2. split; [discriminate|]. intros _.
           repeat split; [exact G|]. rewrite S2, S1, <- app_assoc. reflexivity.
        -- apply syscall_false in S2. split; [|discriminate]. intros _.
           split; [reflexivity|]. right. split; [discriminate|].
           rewrite S2, S1. reflexivity.
    + apply syscall_false in S1. intros H. injection H as <- <- <-.
      split; [|discriminate]. intros _. auto.
Qed.

(** X10. A real write is all or nothing for the session: it returns false with
    the session untouched (though the records may already be in the file
    when it was the payload write that failed), or true with the records
    written at the table slot of the old count, the payload at the old
    cursor, and both counters advanced, the count within the capacity. *)
Theorem WriteOperation_real_commits_or_leaves ops data s w b s' w' :
  IsEstimating s = false ->
  WriteOperation P ops data s w = Some (b, s', w') ->
  let table := WriteOps (GetOpOffset P (op_count (header_ s)) (header_ s)) ops in
  (b = false ->
   s' = s
   /\ (disk w' = disk w \/ (data <> [] /\ disk w' = disk w ++ [table])))
  /\ (b = true ->
      op_count (header_ s')
      = u64 (op_count (header_ s) + Z.of_nat (length ops))
      /\ op_count (header_ s') <= op_count_max (header_ s')
      /\ op_count_max (header_ s') = op_count_max (header_ s)
      /\ next_data_pos_ s' = u64 (next_data_pos_ s + Z.of_nat (length data))
      /\ disk w'
         = disk w
           ++ table :: match data with
                       | [] => []
                       | _ :: _ => [WriteData (next_data_pos_ s) data]
                       end).
Proof.
  intros E R. destruct (WriteOperation_real_log ops data s w b s' w' E R)
    as [Hf Ht].
  split; [exact Hf|]. intros Hb. destruct (Ht Hb) as (-> & G & D).
  unfold committed. cbn -[Z.of_nat]. repeat split; assumption.
Qed.

Lemma EmitCopy_inv new_block old_block num_blocks s w b s' w' :
  EmitCopy P new_block old_block num_blocks s w = Some (b, s', w') ->
  WriteOperation P
    (map (fun i =>
            {| op_type := kCowCopyOp;
               new_block := u64 (new_block + i);
               source := u64 (old_block + i);
               data_length := 0 |})
         (indices num_blocks)) [] s w
  = Some (b, s', w').
Proof.
  unfold EmitCopy. unfold bind at 1.
  destruct (WriteOperation P _ _ s w) as [[[[|] s1] w1]|]; cbn; auto.
Qed.

Lemma EmitZeroBlocks_inv new_block_start num_blocks s w b s' w' :
  EmitZeroBlocks P new_block_start num_blocks s w = Some (b, s', w') ->
  WriteOperation P
    (map (fun i =>
            {| op_type := kCowZeroOp;
               new_block := u64 (new_block_start + i);
               source := 0;
               data_length := 0 |})
         (indices num_blocks)) [] s w
  = Some (b, s', w').
Proof.
  unfold EmitZeroBlocks. unfold bind at 1.
  destruct (WriteOperation P _ _ s w) as [[[[|] s1] w1]|]; cbn; auto.
Qed.

(** X6. A successful real [EmitCopy] appends to the file one table write and
    nothing else: [num_blocks] copy records at the slot of the old count,
    record [i] taking block [new_block + i] from block [old_block + i], with
    no payload; the count advances by [num_blocks] and the payload cursor
    stays where it was. *)
Theorem EmitCopy_records new_block old_block num_blocks s w s' w' :
  IsEstimating s = false ->
  0 <= num_blocks ->
  0 <= next_data_pos_ s < 2 ^ 64 ->
  EmitCopy P new_block old_block num_blocks s w = Some (true, s', w') ->
  disk w'
  = disk w
    ++ [WriteOps (GetOpOffset P (op_count (header_ s)) (header_ s))
          (map (fun i =>
                  {| op_type := kCowCopyOp;
                     new_block := u64 (new_block + i);
                     source := u64 (old_block + i);
                     data_length := 0 |})
               (indices num_blocks))]
  /\ length (records_of (skipn (length (disk w)) (disk w')))
     = Z.to_nat num_blocks
  /\ op_count (header_ s') = u64 (op_count (header_ s) + num_blocks)
  /\ next_data_pos_ s' = next_data_pos_ s.
Proof.
  intros E Hn Hp R. apply EmitCopy_inv in R.
  destruct (WriteOperation_real_log _ _ _ _ _ _ _ E R) as [_ Ht].
  destruct (Ht eq_refl) as (-> & _ & D).
  split; [exact D|]. split; [|split].
  - rewrite D, skipn_app, skipn_all, Nat.sub_diag. cbn.
    rewrite app_nil_r, length_map, indices_length. reflexivity.
  - unfold committed. cbn -[Z.of_nat].
    rewrite length_map, indices_length, Z2Nat.id by assumption. reflexivity.
  - unfold committed. cbn. rewrite Z.add_0_r. apply u64_small. exact Hp.
Qed.

(** X7. A successful real [EmitZeroBlocks] appends to the file one table write
    and nothing else: [num_blocks] zero-fill records at the slot of the old
    count, record [i] for block [new_block_start + i], with no source and no
    payload; the count advances by [num_blocks] and the payload cursor stays
    where it was. *)
Theorem EmitZeroBlocks_records new_block_start num_blocks s w s' w' :
  IsEstimating s = false ->
  0 <= num_blocks ->
  0 <= next_data_pos_ s < 2 ^ 64 ->
  EmitZeroBlocks P new_block_start num_blocks s w = Some (true, s', w') ->
  disk w'
  = disk w
    ++ [WriteOps (GetOpOffset P (op_count (header_ s)) (header_ s))
          (map (fun i =>
                  {| op_type := kCowZeroOp;
                     new_block := u64 (new_block_start + i);
                     source := 0;
                     data_length := 0 |})
               (indices num_blocks))]
  /\ length (records_of (skipn (length (disk w)) (disk w')))
     = Z.to_nat num_blocks
  /\ op_count (header_ s') = u64 (op_count (header_ s) + num_blocks)
  /\ next_data_pos_ s' = next_data_pos_ s.
Proof.
  intros E Hn Hp R. apply EmitZeroBlocks_inv in R.
  destruct (WriteOperation_real_log _ _ _ _ _ _ _ E R) as [_ Ht].
  destruct (Ht eq_refl) as (-> & _ & D).
  split; [exact D|]. split; [|split].
  - rewrite D, skipn_app, skipn_all, Nat.sub_diag. cbn.
    rewrite app_nil_r, length_map, indices_length. reflexivity.
  - unfold committed. cbn -[Z.of_nat].
    rewrite length_map, indices_length, Z2Nat.id by assumption. reflexivity.
  - unfold committed. cbn. rewrite Z.add_0_r. apply u64_small. exact Hp.
Qed.

(** X11. In estimating mode the record emitters never touch the file, and the
    only failure they can report is a block request on a session that asks
    for compression and has no compressor, which changes nothing. *)
Theorem estimating_emitters_skip_the_file c s w b s' w' :
  IsEstimating s = true ->
  emits_records c = true ->
  perform P c s w = Some (b, s', w') ->
  w' = w
  /\ (b = false ->
      s' = s
      /\ is_none (algorithm (compression_ s)) = false
      /\ compressor_ s = None).
Proof.
  intros E Hc R.
  assert (HB : forall nb data ob off type,
             EmitBlocks P nb data ob off type s w = Some (b, s', w') ->
             w' = w
             /\ (b = false ->
                 s' = s
                 /\ is_none (algorithm (compression_ s)) = false
                 /\ compressor_ s = None)).
  { intros nb data ob off type Q.
    destruct (is_none (algorithm (compression_ s))) eqn:Hn.
    - destruct (Z.eq_dec (block_size (header_ s)) 0) as [Z0|NZ].
      { rewrite EmitBlocks_zero_block_size in Q;
          [discriminate | assumption | auto]. }
      destruct (EmitBlocks_uncompressed P nb data ob off type s w Hn NZ)
        as (ops & _ & Q').
      rewrite Q', WriteOperation_estimating in Q by assumption.
      injection Q as <- <- <-. split; [reflexivity | discriminate].
    - destruct (compressor_ s) as [k|] eqn:Hk.
      + destruct (Z.eq_dec (block_size (header_ s)) 0) as [Z0|NZ].
        { rewrite EmitBlocks_zero_block_size in Q;
            [discriminate | assumption | right; congruence]. }
        rewrite (EmitBlocks_compressed_loop P _ _ _ _ _ k) in Q by assumption.
        rewrite EmitBlocks_loop_estimating in Q by assumption.
        injection Q as <- <- <-. split; [reflexivity | discriminate].
      + rewrite EmitBlocks_no_compressor in Q by assumption.
        injection Q as <- <- <-. auto. }
  destruct c as [nb ob n | nb data | nb data ob off | nb n | lbl | data];
    cbn [perform emits_records] in *; try discriminate.
  - apply EmitCopy_inv in R.
    rewrite WriteOperation_estimating in R by assumption.
    injection R as <- <- <-. split; [reflexivity | discriminate].
  - unfold EmitRawBlocks in R. exact (HB _ _ _ _ _ R).
  - unfold EmitXorBlocks in R. exact (HB _ _ _ _ _ R).
  - apply EmitZeroBlocks_inv in R.
    rewrite WriteOperation_estimating in R by assumption.
    injection R as <- <- <-. split; [reflexivity | discriminate].
Qed.


(** ** Opening a session *)

Lemma OpenForWrite_log s w b s' w' :
  OpenForWrite P s w = Some (b, s', w') ->
  (uint16_max < block_size (header_ s) -> b = false /\ s' = s /\ w' = w)
  /\ (b = true ->
      block_size (header_ s) <= uint16_max
      /\ s' = with_next_data_pos (GetDataOffset P (header_ s))
                (with_resume_points [] s)
      /\ disk w'
         = disk w
           ++ [Seek 0; WriteHeader 0 (header_ s) (sizeof_CowHeaderV3 P)]
           ++ (if CowOptions.scratch_space (options_ s)
               then [WriteZeros (buffer_size (header_ s))] else [])
           ++ [Fsync])
  /\ (b = false -> s' = s \/ s' = with_resume_points [] s).
Proof.
  unfold OpenForWrite, Sync. run.
  destruct (uint16_max <? block_size (header_ s)) eqn:G.
  - apply Z.ltb_lt in G. intros H. injection H as <- <- <-.
    split; [auto|]. split; [discriminate | auto].
  - apply Z.ltb_ge in G.
    destruct (syscall (Seek 0) w) as [[|] w1] eqn:S1; cbn.
    2:{ intros H. injection H as <- <- <-.
        split; [lia|]. split; [discriminate | auto]. }
    apply syscall_true in S1.
    destruct (syscall (WriteHeader _ _ _) w1) as [[|] w2] eqn:S2; cbn.
    2:{ intros H. injection H as <- <- <-.
        split; [lia|]. split; [discriminate | auto]. }
    apply syscall_true in S2.
    destruct (CowOptions.scratch_space (options_ s)); cbn.
    + destruct (syscall (WriteZeros _) w2) as [[|] w3] eqn:S3; cbn.
      2:{ intros H. injection H as <- <- <-.
          split; [lia|]. split; [discriminate | auto]. }
      apply syscall_true in S3.
      destruct (syscall Fsync w3) as [[|] w4] eqn:S4; cbn;
        intros H; injection H as <- <- <-; (split; [lia|]).
      * apply syscall_true in S4. split; [|discriminate]. intros _.
        repeat split; [exact G|].
        rewrite S4, S3, S2, S1, <- !app_assoc. reflexivity.
      * split; [discriminate | auto].
    + destruct (syscall Fsync w2) as [[|] w4] eqn:S4; cbn;
        intros H; injection H as <- <- <-; (split; [lia|]).
      * apply syscall_true in S4. split; [|discriminate]. intros _.
        repeat split; [exact G|].
        rewrite S4, S2, S1, <- !app_assoc. reflexivity.
      * split; [discriminate | auto].
Qed.

(** X3. [OpenForWrite] refuses a block size above 65535 before any system call;
    when it succeeds it has sought to 0, written the header, the scratch
    zeros if asked for, and synced, in this order, and left an empty
    resume-point vector and the cursor at the payload start; when it fails
    the header and the cursor are what they were. *)
Theorem OpenForWrite_outcome s w b s' w' :
  OpenForWrite P s w = Some (b, s', w') ->
  (uint16_max < block_size (header_ s) -> b = false /\ s' = s /\ w' = w)
  /\ (b = true ->
      block_size (header_ s) <= uint16_max
      /\ resume_points_ s' = []
      /\ next_data_pos_ s' = GetDataOffset P (header_ s)
      /\ header_ s' = header_ s
      /\ disk w'
         = disk w
           ++ [Seek 0; WriteHeader 0 (header_ s) (sizeof_CowHeaderV3 P)]
           ++ (if CowOptions.scratch_space (options_ s)
               then [WriteZeros (buffer_size (header_ s))] else [])
           ++ [Fsync])
  /\ (b = false ->
      header_ s' = header_ s /\ next_data_pos_ s' = next_data_pos_ s).
Proof.
  intros R. apply OpenForWrite_log in R. destruct R as (H1 & H2 & H3).
  split; [exact H1|]. split.
  - intros Hb. destruct (H2 Hb) as (G & -> & D). repeat split; assumption.
  - intros Hb. destruct (H3 Hb) as [-> | ->]; split; reflexivity.
Qed.

Lemma OpenForAppend_cases lbl s w b s' w' :
  OpenForAppend P lbl s w = Some (b, s', w') ->
  w' = w
  /\ ((ReadCowHeader P w = None /\ b = false /\ s' = s)
      \/ exists h,
           ReadCowHeader P w = Some h
           /\ 0 <= lbl
           /\ ((CowParserV3_Parse P w h lbl = None
                /\ b = false /\ s' = with_header h s)
               \/ exists points ops,
                    CowParserV3_Parse P w h lbl = Some (points, ops)
                    /\ b = true
                    /\ header_ s' = set_op_count (u64 (Z.of_nat (length ops))) h
                    /\ resume_points_ s' = points
                    /\ CowOptions.block_size (options_ s') = block_size h
                    /\ compression_ s' = compression_ s
                    /\ compressor_ s' = compressor_ s
                    /\ is_dev_null_ s' = is_dev_null_ s)).
Proof.
  unfold OpenForAppend. run.
  destruct (ReadCowHeader P w) as [h|] eqn:Hh.
  - cbn. destruct (0 <=? lbl) eqn:G; cbn; [|discriminate].
    apply Z.leb_le in G.
    destruct (CowParserV3_Parse P w h lbl) as [[points ops]|] eqn:Hp;
      cbn -[Z.of_nat]; intros H; injection H as <- <- <-;
      (split; [reflexivity|]); right; exists h;
      (split; [reflexivity|]); (split; [exact G|]).
    + right. exists points, ops. split; [exact Hp|]. repeat split.
    + left. split; [exact Hp|]. repeat split.
  - intros H. injection H as <- <- <-. split; [reflexivity|]. left. auto.
Qed.

(** X4. [OpenForAppend] never writes to the file.  When the header cannot be
    read it fails with the session untouched; when the parser rejects the
    label it fails too, but only after the on-disk header replaced the
    session's header, the rest of the session being untouched. *)
Theorem OpenForAppend_failures lbl s w b s' w' :
  OpenForAppend P lbl s w = Some (b, s', w') ->
  w' = w
  /\ (ReadCowHeader P w = None -> b = false /\ s' = s)
  /\ (forall h,
        ReadCowHeader P w = Some h ->
        CowParserV3_Parse P w h lbl = None ->
        b = false /\ s' = with_header h s)
  /\ (b = false ->
      next_data_pos_ s' = next_data_pos_ s
      /\ resume_points_ s' = resume_points_ s
      /\ options_ s' = options_ s).
Proof.
  intros R. apply OpenForAppend_cases in R. destruct R as (-> & Hc).
  split; [reflexivity|].
  destruct Hc as [(Hn & -> & ->) | (h & Hh & Hl & [(Hp & -> & ->) | Hs])].
  - repeat split; intros; congruence.
  - split; [congruence|]. split.
    + intros h' Hh' _. split; congruence.
    + intros _. repeat split.
  - destruct Hs as (points & ops & Hp & -> & _).
    split; [congruence|]. split.
    + intros h' Hh' Hp'. congruence.
    + discriminate.
Qed.

(** X5. A successful [OpenForAppend] takes the whole header from the file, with
    the committed count replaced by the number of recovered operations, and
    overrides the caller's block size with the header's; the compression
    configuration and the compressor stay those of the options, whatever
    compression tag the header on the file carries. *)
Theorem OpenForAppend_adopts_header lbl s w s' w' :
  OpenForAppend P lbl s w = Some (true, s', w') ->
  exists h points ops,
    ReadCowHeader P w = Some h
    /\ CowParserV3_Parse P w h lbl = Some (points, ops)
    /\ header_ s' = set_op_count (u64 (Z.of_nat (length ops))) h
    /\ op_count_max (header_ s') = op_count_max h
    /\ block_size (header_ s') = block_size h
    /\ CowOptions.block_size (options_ s') = block_size h
    /\ compression_algorithm (header_ s') = compression_algorithm h
    /\ compression_ s' = compression_ s
    /\ compressor_ s' = compressor_ s.
Proof.
  intros R. apply OpenForAppend_cases in R. destruct R as (_ & Hc).
  destruct Hc as [(_ & Hb & _) | (h & Hh & _ & [(_ & Hb & _) | Hs])];
    try discriminate.
  destruct Hs as (points & ops & Hp & _ & Hhd & _ & Hbs & Hc & Hk & _).
  exists h, points, ops. rewrite Hhd. repeat split; assumption.
Qed.


Lemma Initialize_inv lbl s0 w s w' :
  Initialize P lbl s0 w = Some (true, s, w') ->
  exists w0 s1 w1,
    ParseOptions P s0 w0 = Some (true, s1, w1)
    /\ match lbl with
       | None => OpenForWrite P s1 w1 = Some (true, s, w')
       | Some l => OpenForAppend P l s1 w1 = Some (true, s, w')
       end.
Proof.
  unfold Initialize, InitFd. unfold bind at 1, io at 1.
  destruct (syscall SetupFd w) as [[|] w0]; cbn [negb]; [|discriminate].
  unfold bind at 1.
  destruct (ParseOptions P s0 w0) as [[[[|] s1] w1]|] eqn:Q;
    cbn [negb]; try discriminate.
  intros H. exists w0, s1, w1. split; [exact Q|].
  destruct lbl; exact H.
Qed.

Lemma ParseOptions_compressor s w s' w' :
  ParseOptions P s w = Some (true, s', w') ->
  compressor_ s = None ->
  requested_compression P (options_ s) = Some (compression_ s')
  /\ (compressor_ s' = None <-> is_none (algorithm (compression_ s')) = true)
  /\ compression_algorithm (header_ s') = algorithm (compression_ s')
  /\ is_dev_null_ s' = is_dev_null_ s.
Proof.
  unfold ParseOptions, requested_compression. run. cbn.
  destruct (2 <? _); [discriminate|].
  destruct (CompressionAlgorithmFromString P _) as [alg|]; [|discriminate].
  cbn.
  destruct (if 1 <? _ then _ else _) as [lv|]; [|discriminate].
  cbn.
  destruct (is_none alg) eqn:Hn; cbn.
  - intros H Hk. injection H as <- <-. cbn. rewrite Hn.
    repeat split; auto.
  - destruct (ICompressor_Create P _ _) as [k|] eqn:Hk; cbn; [|discriminate].
    intros H _. injection H as <- <-. cbn. rewrite Hn.
    repeat split; intros; discriminate.
Qed.

(** X2. A session that [Initialize] opened, fresh or resumed, compresses as its
    options ask and holds a compressor exactly when the algorithm is not
    "none": the check for an uninitialized compressor in [EmitBlocks] cannot
    fire on it. *)
Theorem Initialize_compressor_ready lbl o d w s w' :
  Initialize P lbl (CowWriterV3_new P o d) w = Some (true, s, w') ->
  requested_compression P o = Some (compression_ s)
  /\ (compressor_ s = None <-> is_none (algorithm (compression_ s)) = true)
  /\ IsEstimating s = d.
Proof.
  intros R. apply Initialize_inv in R. destruct R as (w0 & s1 & w1 & Q & R).
  apply ParseOptions_compressor in Q; [|reflexivity].
  destruct Q as (Hc & Hk & _ & Hd). cbn in Hc, Hd.
  destruct lbl as [l|].
  - apply OpenForAppend_cases in R. destruct R as (_ & Hcases).
    destruct Hcases as [(_ & Hb & _) | (h & _ & _ & [(_ & Hb & _) | Hs])];
      try discriminate.
    destruct Hs as (points & ops & _ & _ & _ & _ & _ & Hc' & Hk' & Hd').
    unfold IsEstimating. rewrite Hc', Hk', Hd'.
    repeat split; tauto || exact Hd.
  - apply OpenForWrite_log in R. destruct R as (_ & Ht & _).
    destruct (Ht eq_refl) as (_ & -> & _). cbn.
    repeat split; tauto || exact Hd.
Qed.

(** X1. A session opened for writing starts with no committed operation, the
    capacity of the options, no resume point, no sequence data, a block size
    that fits 16 bits, format version 3.0, the header's compression tag set
    to the configured algorithm, and [GetCowSize] at the payload start. *)
Theorem Initialize_opens_fresh o d w s w' :
  Initialize P None (CowWriterV3_new P o d) w = Some (true, s, w') ->
  op_count (header_ s) = 0
  /\ op_count_max (header_ s) = u64 (CowOptions.op_count_max o)
  /\ op_count (header_ s) <= op_count_max (header_ s)
  /\ resume_points_ s = []
  /\ resume_point_count (header_ s) = 0
  /\ sequence_data_count (header_ s) = 0
  /\ block_size (header_ s) = u32 (CowOptions.block_size o)
  /\ block_size (header_ s) <= uint16_max
  /\ major_version (prefix (header_ s)) = 3
  /\ minor_version (prefix (header_ s)) = 0
  /\ compression_algorithm (header_ s) = algorithm (compression_ s)
  /\ GetCowSize s = GetDataOffset P (header_ s).
Proof.
  intros R. apply Initialize_inv in R. destruct R as (w0 & s1 & w1 & Q & R).
  pose proof (ParseOptions_compressor _ _ _ _ Q eq_refl) as (_ & _ & Ha & _).
  apply ParseOptions_inv in Q. destruct Q as (c & _ & ->).
  apply OpenForWrite_log in R. destruct R as (_ & Ht & _).
  destruct (Ht eq_refl) as (G & -> & _). cbn -[u64 u32 u16] in *.
  repeat split; try assumption.
  apply u64_range.
Qed.


(** ** Blocks on the compressed path *)

Lemma WriteOperation_block_size ops data s w b s' w' :
  WriteOperation P ops data s w = Some (b, s', w') ->
  block_size (header_ s') = block_size (header_ s).
Proof.
  intros R. apply WriteOperation_moved in R.
  destruct R as [(c & m & p & -> & _) _]. reflexivity.
Qed.

(** The loop reads the buffer only through what it records and stores. *)
Lemma EmitBlocks_loop_ext k new_block_start data data' old_block offset type
    c0 p0 :
  forall n i s w,
  (forall j, i <= j < i + Z.of_nat n ->
     stored_length k (block_size (header_ s)) j data
     = stored_length k (block_size (header_ s)) j data'
     /\ stored_bytes k (block_size (header_ s)) j data
        = stored_bytes k (block_size (header_ s)) j data') ->
  EmitBlocks_loop P k n i new_block_start data old_block offset type c0 p0 s w
  = EmitBlocks_loop P k n i new_block_start data' old_block offset type c0 p0
      s w.
Proof.
  induction n as [|n IH]; intros i s w H; [reflexivity|].
  rewrite !EmitBlocks_loop_S.
  destruct (H i ltac:(lia)) as [-> ->].
  destruct (WriteOperation P _ _ s w) as [[[[|] s1] w1]|] eqn:Q;
    try reflexivity.
  apply IH. intros j Hj.
  rewrite (WriteOperation_block_size _ _ _ _ _ _ _ Q). apply H. lia.
Qed.

Lemma chunk_of_whole_blocks bs j (data : list byte) N :
  0 < bs -> 0 <= j ->
  bs * (j + 1) <= Z.of_nat N ->
  Z.of_nat N < 2 ^ 64 ->
  forall m, (m <= Z.to_nat bs)%nat ->
  firstn m (skipn (Z.to_nat (u64 (bs * j))) (firstn N data))
  = firstn m (skipn (Z.to_nat (u64 (bs * j))) data).
Proof.
  intros Hbs Hj HN H64 m Hm.
  rewrite u64_small by nia.
  rewrite skipn_firstn_comm, firstn_firstn. f_equal. nia.
Qed.

Lemma u16_le bs : 0 <= bs -> u16 bs <= bs.
Proof.
  intros H. unfold u16, wrap. apply Z.mod_le; lia.
Qed.

Lemma u16_nonneg bs : 0 <= u16 bs.
Proof. unfold u16, wrap. apply Z.mod_pos_bound. lia. Qed.

(** X8. With compression, the bytes after the last whole block play no part:
    the request does to the session and to the file exactly what it would
    do without them. *)
Theorem EmitBlocks_compressed_drops_partial_block
    new_block_start data old_block offset type s w :
  is_none (algorithm (compression_ s)) = false ->
  0 < block_size (header_ s) ->
  Z.of_nat (length data) < 2 ^ 64 ->
  let bs := block_size (header_ s) in
  let whole := firstn (Z.to_nat (Z.of_nat (length data) / bs * bs)) data in
  EmitBlocks P new_block_start data old_block offset type s w
  = EmitBlocks P new_block_start whole old_block offset type s w.
Proof.
  intros Hn Hbs H64 bs whole.
  destruct (compressor_ s) as [k|] eqn:Hk.
  2:{ rewrite !EmitBlocks_no_compressor by assumption. reflexivity. }
  rewrite !(EmitBlocks_compressed_loop P _ _ _ _ _ k) by (assumption || lia).
  fold bs.
  set (nb := Z.of_nat (length data) / bs).
  assert (Hnb : 0 <= nb) by (apply Z.div_pos; lia).
  assert (Hle : nb * bs <= Z.of_nat (length data)).
  { rewrite Z.mul_comm. apply Z.mul_div_le. lia. }
  assert (Hlen : Z.of_nat (length whole) = nb * bs).
  { unfold whole. fold nb. rewrite length_firstn. lia. }
  rewrite Hlen, Z.div_mul by lia.
  symmetry. apply EmitBlocks_loop_ext. fold bs. intros j Hj.
  assert (Hc : chunk bs j whole = chunk bs j data).
  { unfold chunk, whole. fold nb.
    apply chunk_of_whole_blocks; try lia. nia. }
  assert (Hl : stored_length k bs j whole = stored_length k bs j data).
  { unfold stored_length. rewrite Hc. reflexivity. }
  split; [exact Hl|].
  unfold stored_bytes. rewrite Hl, Hc.
  destruct (Z.of_nat (length (k (chunk bs j data))) <? u16 bs) eqn:G;
    [reflexivity|].
  unfold whole. fold nb. apply chunk_of_whole_blocks; try lia; [nia|].
  unfold stored_length. rewrite G.
  pose proof (u16_le bs ltac:(lia)). pose proof (u16_nonneg bs). lia.
Qed.


Lemma stored_bytes_length k bs j (data : list byte) :
  0 < bs -> 0 <= j ->
  bs * (j + 1) <= Z.of_nat (length data) ->
  Z.of_nat (length data) < 2 ^ 64 ->
  Z.of_nat (length (stored_bytes k bs j data)) = stored_length k bs j data.
Proof.
  intros Hbs Hj Hin H64. unfold stored_bytes, stored_length. cbn zeta.
  destruct (Z.of_nat (length (k (chunk bs j data))) <? u16 bs) eqn:G.
  - rewrite Nat2Z.id, firstn_all. reflexivity.
  - rewrite length_firstn, length_skipn, u64_small by nia.
    pose proof (u16_le bs ltac:(lia)). pose proof (u16_nonneg bs). nia.
Qed.

Lemma EmitBlocks_loop_placed k new_block_start data old_block offset type
    c0 p0 s0 :
  IsEstimating s0 = false ->
  CowOperationType_eqb type kCowXorOp = false ->
  0 < block_size (header_ s0) ->
  Z.of_nat (length data) < 2 ^ 64 ->
  forall n i c p w s' w',
  0 <= i ->
  block_size (header_ s0) * (i + Z.of_nat n) <= Z.of_nat (length data) ->
  EmitBlocks_loop P k n i new_block_start data old_block offset type c0 p0
    (at_counts c p s0) w = Some (true, s', w') ->
  exists added,
    disk w' = disk w ++ added
    /\ placed_from p added (next_data_pos_ s')
    /\ match added with
       | WriteData _ _ :: _ => False
       | _ => True
       end.
Proof.
  intros E Hty Hbs H64. induction n as [|n IH]; intros i c p w s' w' Hi Hin R.
  - cbn in R. injection R as <- <-. exists []. rewrite app_nil_r.
    repeat split.
  - rewrite EmitBlocks_loop_S in R.
    change (block_size (header_ (at_counts c p s0)))
      with (block_size (header_ s0)) in R.
    change (next_data_pos_ (at_counts c p s0)) with p in R.
    unfold source_of in R. rewrite Hty in R.
    match type of R with
    | context [WriteOperation P ?o ?d _ _] => set (ops := o) in *; set (payload := d) in *
    end.
    destruct (WriteOperation P ops payload (at_counts c p s0) w)
      as [[[b1 s1] w1]|] eqn:Q; [|discriminate].
    destruct b1; [|discriminate].
    destruct (WriteOperation_real_log ops payload (at_counts c p s0) w true
                s1 w1 E Q) as [_ Ht].
    destruct (Ht eq_refl) as (-> & _ & D).
    rewrite committed_at_counts in R.
    destruct (IH (i + 1) _ _ w1 s' w' ltac:(lia) ltac:(lia) R)
      as (added & D' & Hp & Hhead).
    assert (Hlen : Z.of_nat (length payload)
                   = stored_length k (block_size (header_ s0)) i data).
    { unfold payload. apply stored_bytes_length; try lia. }
    eexists. split.
    { rewrite D', D, <- app_assoc. reflexivity. }
    cbn [app]. unfold ops. clear Q R D. clearbody payload.
    destruct payload as [|b0 d0].
    + cbn [app placed_from]. split; [|exact I].
      destruct added as [|[] rest]; try contradiction;
        (split; [reflexivity|]);
        (split; [cbn [data_length]; rewrite <- Hlen; reflexivity|]);
        exact Hp.
    + cbn [app placed_from]. split; [|exact I].
      split; [reflexivity|]. split; [reflexivity|].
      split; [cbn [data_length]; rewrite <- Hlen; reflexivity|]. exact Hp.
Qed.

(** X9. On the compressed path of a real session, a successful raw-block
    request leaves the file consistent: every record's source is the
    position its payload was written to and its length the number of bytes
    written there, the payloads follow one another from the old payload
    cursor, and the new cursor is the end of the last one. *)
Theorem EmitBlocks_compressed_places_payload
    new_block_start data old_block offset type k s w s' w' :
  is_none (algorithm (compression_ s)) = false ->
  compressor_ s = Some k ->
  IsEstimating s = false ->
  type <> kCowXorOp ->
  0 < block_size (header_ s) ->
  Z.of_nat (length data) < 2 ^ 64 ->
  EmitBlocks P new_block_start data old_block offset type s w
  = Some (true, s', w') ->
  exists added,
    disk w' = disk w ++ added
    /\ placed_from (next_data_pos_ s) added (GetCowSize s').
Proof.
  intros Hn Hk E Hty Hbs H64 R.
  rewrite (EmitBlocks_compressed_loop P _ _ _ _ _ k) in R by (assumption || lia).
  assert (Hx : CowOperationType_eqb type kCowXorOp = false)
    by (destruct type; try reflexivity; contradiction).
  set (nb := Z.of_nat (length data) / block_size (header_ s)) in *.
  assert (Hnb : 0 <= nb) by (apply Z.div_pos; lia).
  assert (Hle : block_size (header_ s) * nb <= Z.of_nat (length data))
    by (apply Z.mul_div_le; lia).
  assert (Hin : block_size (header_ s) * (0 + Z.of_nat (Z.to_nat nb))
                <= Z.of_nat (length data)).
  { rewrite Z2Nat.id, Z.add_0_l by assumption. exact Hle. }
  pose proof (EmitBlocks_loop_placed k new_block_start data old_block offset
                type (op_count (header_ s)) (next_data_pos_ s) s E Hx Hbs H64
                (Z.to_nat nb) 0 (op_count (header_ s)) (next_data_pos_ s) w
                s' w' (Z.le_refl 0) Hin) as H.
  rewrite at_counts_same in H.
  destruct (H R) as (added & D & Hp & _).
  exists added. split; [exact D | exact Hp].
Qed.



End Extras.


(** * The further properties at concrete inputs *)

Lemma replay_keeps_within_capacity_witness :
  op_count (header_ (snd (fst real_end))) = 3
  /\ op_count (header_ (snd (fst real_end)))
     <= op_count_max (header_ (snd (fst real_end)))
  /\ op_count_max (header_ (snd (fst real_end))) = 3.
Proof.
  destruct (replay_keeps_within_capacity PX example_calls
              (real_session "lz4" 3) quiet (fst (fst real_end))
              (snd (fst real_end)) (snd real_end))
    as (H1 & _ & H3).
  - vm_compute. discriminate.
  - vm_compute. reflexivity.
  - split; [reflexivity|]. split; [exact H1|].
    rewrite H3 by reflexivity. reflexivity.
Defined.

Lemma replay_keeps_setup_witness :
  block_size (header_ (snd (fst real_end))) = 4
  /\ compressor_ (snd (fst real_end)) = Some toy_compress.
Proof.
  destruct (replay_keeps_setup PX example_calls (real_session "lz4" 3) quiet
              (fst (fst real_end)) (snd (fst real_end)) (snd real_end))
    as (_ & _ & Hk & _ & Hb & _).
  - vm_compute. reflexivity.
  - split; [rewrite Hb | rewrite Hk]; reflexivity.
Defined.

Lemma replay_keeps_labels_increasing_witness :
  increasing_labels (resume_points_ (snd (fst real_end)))
  /\ Z.of_nat (length (resume_points_ (snd (fst real_end)))) <= 4.
Proof.
  destruct (replay_keeps_labels_increasing PX example_calls
              (real_session "lz4" 3) quiet (fst (fst real_end))
              (snd (fst real_end)) (snd real_end))
    as (H1 & H2).
  - constructor.
  - vm_compute. reflexivity.
  - split; [exact H1|]. apply H2. vm_compute. discriminate.
Defined.

Lemma EmitLabel_persists_in_order_witness :
  exists written,
    disk (snd label_end) = written
    /\ length written = 3%nat
    /\ last written Fsync = Fsync.
Proof.
  destruct (EmitLabel_persists_in_order PX 7 (real_session "none" 5) quiet
              (fst (fst label_end)) (snd (fst label_end)) (snd label_end))
    as (written & D & Ht & _).
  - vm_compute. reflexivity.
  - exists written. split; [exact D|].
    rewrite (Ht eq_refl). split; reflexivity.
Defined.

Lemma EmitLabel_newest_entry_witness :
  exists older,
    resume_points_ (snd (fst label_end))
    = older ++ [{| label := 7; op_index := 0 |}]
    /\ resume_point_count (header_ (snd (fst label_end))) = 1.
Proof.
  destruct (EmitLabel_newest_entry PX 7 (real_session "none" 5) quiet
              (fst (fst label_end)) (snd (fst label_end)) (snd label_end))
    as (older & Hv & _ & Hc & _).
  - vm_compute. discriminate.
  - vm_compute. reflexivity.
  - exists older. split; [exact Hv|]. rewrite Hc. reflexivity.
Defined.

Lemma WriteOperation_real_commits_or_leaves_witness :
  snd (fst torn_end) = real_session "none" 2
  /\ (disk (snd torn_end) = []
      \/ disk (snd torn_end) = [WriteOps 138 [zero_op 0]]).
Proof.
  destruct (WriteOperation_real_commits_or_leaves PX [zero_op 0] [x01]
              (real_session "none" 2) (failing [true; false])
              (fst (fst torn_end)) (snd (fst torn_end)) (snd torn_end))
    as (Hf & _).
  - reflexivity.
  - vm_compute. reflexivity.
  - destruct (Hf eq_refl) as (Hs & [D | [_ D]]).
    + split; [exact Hs|]. left. exact D.
    + split; [exact Hs|]. right. rewrite D. reflexivity.
Defined.

Lemma EmitCopy_records_witness :
  length (records_of (disk (snd copy_end))) = 3%nat
  /\ op_count (header_ (snd (fst copy_end))) = 3
  /\ next_data_pos_ (snd (fst copy_end))
     = next_data_pos_ (real_session "none" 5).
Proof.
  destruct (EmitCopy_records PX 10 20 3 (real_session "none" 5) quiet
              (snd (fst copy_end)) (snd copy_end))
    as (_ & Hn & Hc & Hp).
  - reflexivity.
  - vm_compute. discriminate.
  - split; [vm_compute; discriminate | vm_compute; reflexivity].
  - vm_compute. reflexivity.
  - split; [exact Hn|]. split; [rewrite Hc; reflexivity | exact Hp].
Defined.

Lemma EmitZeroBlocks_records_witness :
  length (records_of (disk (snd zero_end))) = 3%nat
  /\ op_count (header_ (snd (fst zero_end))) = 3
  /\ next_data_pos_ (snd (fst zero_end))
     = next_data_pos_ (real_session "none" 5).
Proof.
  destruct (EmitZeroBlocks_records PX 10 3 (real_session "none" 5) quiet
              (snd (fst zero_end)) (snd zero_end))
    as (_ & Hn & Hc & Hp).
  - reflexivity.
  - vm_compute. discriminate.
  - split; [vm_compute; discriminate | vm_compute; reflexivity].
  - vm_compute. reflexivity.
  - split; [exact Hn|]. split; [rewrite Hc; reflexivity | exact Hp].
Defined.

Lemma estimating_emitters_skip_the_file_witness :
  snd estimate_blocks_end = quiet.
Proof.
  refine (proj1 (estimating_emitters_skip_the_file PX
                   (CallEmitRawBlocks 0 nine_bytes) estimating_session quiet
                   (fst (fst estimate_blocks_end))
                   (snd (fst estimate_blocks_end)) (snd estimate_blocks_end)
                   _ _ _)).
  - reflexivity.
  - reflexivity.
  - vm_compute. reflexivity.
Defined.

Lemma OpenForWrite_outcome_witness :
  resume_points_ (snd (fst open_end)) = []
  /\ next_data_pos_ (snd (fst open_end)) = GetDataOffset PX (header_ unopened)
  /\ disk (snd open_end)
     = [Seek 0; WriteHeader 0 (header_ unopened) 74; Fsync].
Proof.
  destruct (OpenForWrite_outcome PX unopened quiet (fst (fst open_end))
              (snd (fst open_end)) (snd open_end))
    as (_ & Ht & _).
  - vm_compute. reflexivity.
  - destruct (Ht eq_refl) as (_ & Hr & Hp & _ & D).
    split; [exact Hr|]. split; [exact Hp|]. rewrite D. reflexivity.
Defined.

Lemma OpenForAppend_failures_witness :
  OpenForAppend PX 1 unopened quiet = Some (false, unopened, quiet).
Proof.
  destruct (OpenForAppend_failures PX 1 unopened quiet false unopened quiet)
    as (_ & Hn & _).
  - vm_compute. reflexivity.
  - destruct (Hn eq_refl) as [_ _]. vm_compute. reflexivity.
Defined.

Lemma OpenForAppend_adopts_header_witness :
  exists h (ops : list CowOperationV3),
    ReadCowHeader PR quiet = Some h
    /\ header_ (snd (fst append_end))
       = set_op_count (u64 (Z.of_nat (length ops))) h
    /\ op_count_max (header_ (snd (fst append_end))) = op_count_max h
    /\ CowOptions.block_size (options_ (snd (fst append_end))) = block_size h.
Proof.
  destruct (OpenForAppend_adopts_header PR 1 unopened quiet
              (snd (fst append_end)) (snd append_end))
    as (h & points & ops & Hh & Hp & Hhd & Hm & _ & Hb & _).
  - vm_compute. reflexivity.
  - exists h, ops. repeat split; assumption.
Defined.

Lemma Initialize_compressor_ready_witness :
  requested_compression PR (example_options "lz4" 0)
  = Some (compression_ (snd (fst resumed_start)))
  /\ compressor_ (snd (fst resumed_start)) <> None.
Proof.
  destruct (Initialize_compressor_ready PR (Some 1) (example_options "lz4" 0)
              false quiet (snd (fst resumed_start)) (snd resumed_start))
    as (Hc & Hk & _).
  - vm_compute. reflexivity.
  - split; [exact Hc|]. intros Hnone. apply Hk in Hnone.
    vm_compute in Hnone. discriminate.
Defined.

Lemma Initialize_opens_fresh_witness :
  op_count (header_ (snd (fst estimate_start))) = 0
  /\ resume_points_ (snd (fst estimate_start)) = []
  /\ block_size (header_ (snd (fst estimate_start))) <= uint16_max
  /\ GetCowSize (snd (fst estimate_start)) = 138.
Proof.
  destruct (Initialize_opens_fresh PX (example_options "lz4" 0) true quiet
              (snd (fst estimate_start)) (snd estimate_start))
    as (H1 & _ & _ & H4 & _ & _ & _ & H8 & _ & _ & _ & H12).
  - vm_compute. reflexivity.
  - split; [exact H1|]. split; [exact H4|]. split; [exact H8|].
    rewrite H12. reflexivity.
Defined.

Lemma EmitBlocks_compressed_drops_partial_block_witness :
  EmitBlocks PX 0 nine_bytes 0 0 kCowReplaceOp (real_session "lz4" 5) quiet
  = EmitBlocks PX 0 (firstn 8 nine_bytes) 0 0 kCowReplaceOp
      (real_session "lz4" 5) quiet.
Proof.
  apply (EmitBlocks_compressed_drops_partial_block PX 0 nine_bytes 0 0
           kCowReplaceOp (real_session "lz4" 5) quiet).
  - reflexivity.
  - reflexivity.
  - vm_compute. reflexivity.
Defined.

Lemma EmitBlocks_compressed_places_payload_witness :
  exists added,
    disk (snd compressed_end) = added
    /\ placed_from 208 added 213.
Proof.
  destruct (EmitBlocks_compressed_places_payload PX 0 nine_bytes 0 0
              kCowReplaceOp toy_compress (real_session "lz4" 5) quiet
              (snd (fst compressed_end)) (snd compressed_end))
    as (added & D & Hp).
  - reflexivity.
  - reflexivity.
  - reflexivity.
  - discriminate.
  - reflexivity.
  - vm_compute. reflexivity.
  - vm_compute. reflexivity.
  - exists added. split; [exact D | exact Hp].
Defined.
